(** * superdrop: the drag-and-drop event engine of [src/main.ts]

    A shallow embedding of [calcPosition], [DEFAULTS] and
    [createDragDropObservable], and the properties of the emitted payload
    stream.

    JavaScript numbers are IEEE 754 binary64 values: they are modelled by the
    kernel's primitive floats, [<] by [PrimFloat.ltb], [===] on numbers by
    [PrimFloat.eqb] (so [NaN] differs from itself and the two zeros are
    equal).  DOM nodes are handles compared by identity. *)

From Stdlib Require Import Floats.
From stdpp Require Import gmap strings list.

Set Default Proof Using "Type".

(** ** Numbers *)

Module Num.

(** [a < b], [a > b] (IEEE "greater than", the same test as [b < a]) and
    [a === b] on numbers. *)
Definition lt (a b : float) : bool := PrimFloat.ltb a b.
Definition gt (a b : float) : bool := PrimFloat.ltb b a.
Definition seq (a b : float) : bool := PrimFloat.eqb a b.

End Num.

(** ** The position calculator *)

Inductive DropPositionRules :=
  | RuleAll | RuleNotAfter | RuleAround | RuleNone | RuleIn | RuleBefore | RuleAfter.

Inductive DropPosition := PosBefore | PosAfter | PosIn | PosNone.

Global Instance DropPosition_eq_dec : EqDecision DropPosition.
Proof. solve_decision. Defined.

Global Instance DropPositionRules_eq_dec : EqDecision DropPositionRules.
Proof. solve_decision. Defined.

(** The default of [calcPosition]'s second parameter, the double nearest to 0.3. *)
Definition threshold_default : float := 0x1.3333333333333p-2%float.

(** [calcPosition(allowedPositions, threshold = 0.3)(offset, widthOrHeight)]:
    an [undefined] threshold takes the parameter's default. *)
Definition calcPosition (allowedPositions : DropPositionRules)
    (threshold : option float) (offset widthOrHeight : float) : DropPosition :=
  let threshold := default threshold_default threshold in
  match allowedPositions with
  | RuleAll =>
      if Num.lt offset (widthOrHeight * threshold)%float then PosBefore
      else if Num.gt offset (widthOrHeight * (1 - threshold))%float then PosAfter
      else PosIn
  | RuleNotAfter =>
      if Num.lt offset (widthOrHeight * threshold)%float then PosBefore else PosIn
  | RuleAround =>
      if Num.lt offset (widthOrHeight / 2)%float then PosBefore else PosAfter
  | RuleNone => PosNone
  | RuleIn => PosIn
  | RuleBefore => PosBefore
  | RuleAfter => PosAfter
  end.

(** The table of the specification (section 4.1), row by row: each rule's rows
    are read in order, a later row applying when the earlier ones do not. *)
Inductive position_table (t o s : float) : DropPositionRules → DropPosition → Prop :=
  | row_all_before :
      Num.lt o (s * t)%float = true → position_table t o s RuleAll PosBefore
  | row_all_after :
      Num.lt o (s * t)%float = false → Num.gt o (s * (1 - t))%float = true →
      position_table t o s RuleAll PosAfter
  | row_all_in :
      Num.lt o (s * t)%float = false → Num.gt o (s * (1 - t))%float = false →
      position_table t o s RuleAll PosIn
  | row_notAfter_before :
      Num.lt o (s * t)%float = true → position_table t o s RuleNotAfter PosBefore
  | row_notAfter_in :
      Num.lt o (s * t)%float = false → position_table t o s RuleNotAfter PosIn
  | row_around_before :
      Num.lt o (s / 2)%float = true → position_table t o s RuleAround PosBefore
  | row_around_after :
      Num.lt o (s / 2)%float = false → position_table t o s RuleAround PosAfter
  | row_none : position_table t o s RuleNone PosNone
  | row_in : position_table t o s RuleIn PosIn
  | row_before : position_table t o s RuleBefore PosBefore
  | row_after : position_table t o s RuleAfter PosAfter.

(** ** The page: DOM nodes and what the platform answers *)

(** A DOM node; [===] on nodes is identity of handles. *)
Definition Elem := nat.

(** [document.body], the default container. *)
Definition document_body : Elem := 0.

(** The fields of a [DOMRect] the engine reads. *)
Record Rect := { width : float; height : float }.

(** [HTMLElement | Window], the type of a payload's scroll container. *)
Inductive ScrollContainer :=
  | Window
  | ScrollElement (el : Elem).

Global Instance ScrollContainer_eq_dec : EqDecision ScrollContainer.
Proof. solve_decision. Defined.

(** The page as it is when a native event is dispatched: the DOM queries the
    engine makes, and the application's selection model a multi-selection
    provider reads.

    Modelled from the spec: [getClosestScrollContainer] of [utils], which is
    not among the sources, is the nearest scrollable ancestor of an element or
    the window, a function of the current layout: it is a field of the page. *)
Record Page := {
  isHTMLElement : Elem → bool;
  closest : Elem → string → option Elem;
  contains : Elem → Elem → bool;
  getAttribute : Elem → string → option string;
  querySelectorAll : option Elem → string → list Elem;
  getBoundingClientRect : Elem → Rect;
  getClosestScrollContainer : Elem → ScrollContainer;
  selected : list Elem;
}.

(** The native events the engine listens to: [mousedown] and [dragstart] as
    they reach the container's listeners, [mouseup] the document's, [dragover]
    and [dragend] those of [document.body].  A [dragover] carries the time of
    its dispatch in milliseconds and both offsets. *)
Inductive NativeEvent :=
  | mousedown (target : Elem)
  | mouseup
  | dragstart (target : Elem)
  | dragover (timeStamp : nat) (offsetX offsetY : float) (target : Elem)
  | dragend.

(** ** Configuration *)

(** The resolved configuration, [DragDropOptions].  Where the engine itself
    tests a value for being falsy, the field has the falsy value in its type:
    [dragOverThrottle] 0, [threshold], [onBeforeDragStart] and
    [getSelectedElements] [undefined].  Functions supplied by the caller may
    read the page. *)
Module Options.
Record t := {
  container : Elem;
  dragElementSelector : string;
  dropElementSelector : string;
  handleSelector : string;
  getElementId : Page → Elem → option string;
  dropPositionFn : Page → Elem → option Elem → DropPositionRules;
  vertical : bool;
  dragOverThrottle : nat;
  threshold : option float;
  onBeforeDragStart : option (Page → Elem → bool);
  getSelectedElements : option (Page → list Elem);
}.
End Options.

(** A partial configuration, [DragDropOptionsOptional] and the type of
    [DEFAULTS]: every key may be absent ([None]); the value of a present key
    is of the field's type, and may be [undefined] where the engine tests it. *)
Module Partial.
Record t := {
  container : option Elem;
  dragElementSelector : option string;
  dropElementSelector : option string;
  handleSelector : option (option string);
  getElementId : option (Page → Elem → option string);
  dropPositionFn : option (Page → Elem → option Elem → DropPositionRules);
  vertical : option bool;
  dragOverThrottle : option nat;
  threshold : option (option float);
  onBeforeDragStart : option (option (Page → Elem → bool));
  getSelectedElements : option (option (Page → list Elem));
}.

Definition empty : t :=
  {| container := None; dragElementSelector := None; dropElementSelector := None;
     handleSelector := None; getElementId := None; dropPositionFn := None;
     vertical := None; dragOverThrottle := None; threshold := None;
     onBeforeDragStart := None; getSelectedElements := None |}.
End Partial.

Definition DEFAULTS : Partial.t :=
  {| Partial.container := Some document_body;
     Partial.dragElementSelector := Some "[data-id]";
     Partial.dropElementSelector := Some "[data-id]";
     Partial.handleSelector := Some (Some "[data-id]");
     Partial.getElementId := Some (λ pg el, getAttribute pg el "data-id");
     Partial.dropPositionFn := Some (λ _ _ _, RuleAround);
     Partial.vertical := Some true;
     Partial.dragOverThrottle := Some 20;
     Partial.threshold := Some (Some threshold_default);
     Partial.onBeforeDragStart :=
       Some (Some (λ pg el,
         negb (bool_decide (is_Some
           (closest pg el "button:not([data-id]), a:not([data-id]), input, textarea")))));
     Partial.getSelectedElements := None |}.

(** One key of [{ ...a, ...b }]: [b]'s when [b] has the key, else [a]'s. *)
Definition spread_key {A} (a b : option A) : option A :=
  match b with Some v => Some v | None => a end.

(** [{ ...a, ...b }]. *)
Definition spread (a b : Partial.t) : Partial.t :=
  {| Partial.container := spread_key (Partial.container a) (Partial.container b);
     Partial.dragElementSelector :=
       spread_key (Partial.dragElementSelector a) (Partial.dragElementSelector b);
     Partial.dropElementSelector :=
       spread_key (Partial.dropElementSelector a) (Partial.dropElementSelector b);
     Partial.handleSelector := spread_key (Partial.handleSelector a) (Partial.handleSelector b);
     Partial.getElementId := spread_key (Partial.getElementId a) (Partial.getElementId b);
     Partial.dropPositionFn := spread_key (Partial.dropPositionFn a) (Partial.dropPositionFn b);
     Partial.vertical := spread_key (Partial.vertical a) (Partial.vertical b);
     Partial.dragOverThrottle :=
       spread_key (Partial.dragOverThrottle a) (Partial.dragOverThrottle b);
     Partial.threshold := spread_key (Partial.threshold a) (Partial.threshold b);
     Partial.onBeforeDragStart :=
       spread_key (Partial.onBeforeDragStart a) (Partial.onBeforeDragStart b);
     Partial.getSelectedElements :=
       spread_key (Partial.getSelectedElements a) (Partial.getSelectedElements b) |}.

(** Truthiness of a [string | undefined]: [undefined] and the empty string
    are falsy. *)
Definition truthy (s : option string) : bool :=
  match s with
  | Some s => negb (bool_decide (s = EmptyString))
  | None => false
  end.

(** A key of the merged object read at its type in [DragDropOptions]; a
    missing key, which [DEFAULTS] excludes for all but [getSelectedElements],
    reads as the value [d]. *)
Definition read {A} (d : A) (k : option A) : A := default d k.

(** The first three statements of [createDragDropObservable]: the merge of
    the supplied options over [DEFAULTS], then the fallback of the handle
    selector. *)
Definition optionsExtended (options : Partial.t) : Options.t :=
  let merged := spread DEFAULTS options in
  let dragElementSelector := read "[data-id]" (Partial.dragElementSelector merged) in
  let handleSelector := read None (Partial.handleSelector merged) in
  {| Options.container := read document_body (Partial.container merged);
     Options.dragElementSelector := dragElementSelector;
     Options.dropElementSelector := read "[data-id]" (Partial.dropElementSelector merged);
     Options.handleSelector :=
       if truthy handleSelector then default EmptyString handleSelector else dragElementSelector;
     Options.getElementId := read (λ _ _, None) (Partial.getElementId merged);
     Options.dropPositionFn := read (λ _ _ _, RuleAround) (Partial.dropPositionFn merged);
     Options.vertical := read false (Partial.vertical merged);
     Options.dragOverThrottle := read 0 (Partial.dragOverThrottle merged);
     Options.threshold := read None (Partial.threshold merged);
     Options.onBeforeDragStart := read None (Partial.onBeforeDragStart merged);
     Options.getSelectedElements := read None (Partial.getSelectedElements merged) |}.

(** ** Payloads *)

Inductive DragDropEventType := BeforeDragStart | DragStart | DragOver | DragEnd.

Global Instance DragDropEventType_eq_dec : EqDecision DragDropEventType.
Proof. solve_decision. Defined.

Record DragDropPayload := {
  type : DragDropEventType;
  originalEvent : NativeEvent;
  dropElement : option Elem;
  dragElements : list Elem;
  scrollContainer : ScrollContainer;
  position : option DropPosition;
  options : Options.t;
  container : Elem;
}.

(** ** The engine *)

(** What the handlers of one engine share: the [currentPayload] variable of
    [createDragDropObservable] (unassigned until the first emission), the
    rectangle cache of [utils], and the elements whose [draggable] attribute
    the engine has set to ["true"]. *)
Record Store := {
  currentPayload : option DragDropPayload;
  rectCache : gmap (option string) Rect;
  draggable : gset Elem;
}.

(** One inner subscription of the [mergeMap], made at a [mousedown] that
    passed the filters: whether [dragStart$.pipe(take(1))] still listens;
    whether [dragEnd$.pipe(take(1))] still listens, which is also whether
    [takeUntil(dragEnd$)] has not yet stopped the [dragOver$] of this
    subscription; and the state of the operators of that [dragOver$]:
    the time at which the window opened by [throttleTime] closes, and the
    last value each [distinctUntilChanged] let through. *)
Record Inner := {
  dragStartPending : bool;
  dragEndPending : bool;
  throttledUntil : option nat;
  prevOffset : option float;
  prevResult : option (DropPosition * Elem);
}.

Record Engine := {
  store : Store;
  inners : list Inner;
  mouseupListeners : nat;
}.

Definition newInner : Inner :=
  {| dragStartPending := true; dragEndPending := true; throttledUntil := None;
     prevOffset := None; prevResult := None |}.

Definition initial : Engine :=
  {| store := {| currentPayload := None; rectCache := ∅; draggable := ∅ |};
     inners := []; mouseupListeners := 0 |}.

(** The [tap] that ends the pipeline: [currentPayload = payload]. *)
Definition emit (payload : DragDropPayload) (st : Store) : Store :=
  {| currentPayload := Some payload; rectCache := rectCache st; draggable := draggable st |}.

Definition setRectCache (c : gmap (option string) Rect) (st : Store) : Store :=
  {| currentPayload := currentPayload st; rectCache := c; draggable := draggable st |}.

Definition setDraggable (d : gset Elem) (st : Store) : Store :=
  {| currentPayload := currentPayload st; rectCache := rectCache st; draggable := d |}.

(** Modelled from the spec: [flushRectCache] of [utils], which is not among
    the sources, clears all entries of the cache. *)
Definition flushRectCache (st : Store) : Store := setRectCache ∅ st.

(** Modelled from the spec: [setAttributesTo(selector, "draggable", "false",
    root)] of [utils], which is not among the sources, demotes every element
    matching the selector (under [root], or in the document) back to
    non-draggable. *)
Definition setAttributesTo_draggable_false (pg : Page) (selector : string)
    (root : option Elem) (st : Store) : Store :=
  setDraggable (draggable st ∖ list_to_set (querySelectorAll pg root selector)) st.

(** [throttleTime(duration)] with its default configuration (leading, not
    trailing): a value arriving while the window opened by an earlier value
    is still open is dropped ([None]); otherwise it passes and opens a window
    of [duration] milliseconds.  The window's timer has fired when the time
    of dispatch has reached its end. *)
Definition throttleTime (duration timeStamp : nat) (until : option nat) : option (option nat) :=
  match until with
  | Some u => if timeStamp <? u then None else Some (Some (timeStamp + duration))
  | None => Some (Some (timeStamp + duration))
  end.

Section engine.

Variable opts : Options.t.

Definition createPayload (type : DragDropEventType) (originalEvent : NativeEvent)
    (dragElements : list Elem) (scrollContainer : ScrollContainer)
    (dropElement : option Elem) (position : option DropPosition) : DragDropPayload :=
  {| type := type; originalEvent := originalEvent; dropElement := dropElement;
     dragElements := dragElements; scrollContainer := scrollContainer;
     position := position; options := opts; container := Options.container opts |}.

(** Modelled from the spec: [getRectCached(element, getElementId,
    container)] of [utils], which is not among the sources, returns the
    cached rectangle when there is one for the element's identity, else
    queries the live geometry, stores it and returns it. *)
Definition getRectCached (pg : Page) (cache : gmap (option string) Rect) (el : Elem)
    : Rect * gmap (option string) Rect :=
  let id := Options.getElementId opts pg el in
  match cache !! id with
  | Some r => (r, cache)
  | None => let r := getBoundingClientRect pg el in (r, <[id := r]> cache)
  end.

Definition getCombinedSelectedElements (pg : Page) (currentElement : Elem) : list Elem :=
  match Options.getSelectedElements opts with
  | Some getSelectedElements =>
      foldl (λ (acc : list Elem) item,
               let selectedElements := getSelectedElements pg in
               if bool_decide (item ∈ selectedElements) then selectedElements
               else selectedElements ++ [item])
            [] [currentElement]
  | None => [currentElement]
  end.

(** The rule [calcPositionLocal] hands to [calcPosition]; [dragElement] is
    [undefined] when the dragged list is empty. *)
Definition localRule (pg : Page) (dropElement : Elem) (dragElement : option Elem)
    : DropPositionRules :=
  if bool_decide (dragElement ≠ Some dropElement)
  then Options.dropPositionFn opts pg dropElement dragElement
  else RuleNone.

Definition calcPositionLocal (pg : Page) (cache : gmap (option string) Rect)
    (dropElement : Elem) (dragElement : option Elem) (offset : float)
    : DropPosition * gmap (option string) Rect :=
  let rule := localRule pg dropElement dragElement in
  let '(rect, cache) := getRectCached pg cache dropElement in
  (calcPosition rule (Options.threshold opts) offset
     (if Options.vertical opts then height rect else width rect), cache).

(** *** [mousedown$] *)

Definition onMouseDown (pg : Page) (e : NativeEvent) (target : Elem) (s : Engine)
    : Engine * list DragDropPayload :=
  if isHTMLElement pg target
     && match Options.onBeforeDragStart opts with
        | Some onBeforeDragStart => onBeforeDragStart pg target
        | None => true
        end
     && bool_decide (is_Some (closest pg target (Options.handleSelector opts)))
  then
    match closest pg target (Options.handleSelector opts),
          closest pg target (Options.dragElementSelector opts) with
    | Some _, Some dragElement =>
        let payload :=
          createPayload BeforeDragStart e [dragElement]
            (getClosestScrollContainer pg dragElement) None None in
        ({| store := emit payload
                       (setDraggable ({[dragElement]} ∪ draggable (store s)) (store s));
            inners := inners s ++ [newInner];
            mouseupListeners := S (mouseupListeners s) |}, [payload])
    | _, _ => (s, [])
    end
  else (s, []).

(** The one-shot [mouseup] listeners armed by the [mousedown]s. *)
Definition onMouseUp (pg : Page) (s : Engine) : Engine * list DragDropPayload :=
  match mouseupListeners s with
  | 0 => (s, [])
  | S _ =>
      ({| store := setAttributesTo_draggable_false pg (Options.dragElementSelector opts)
                     (Some (Options.container opts)) (store s);
          inners := inners s; mouseupListeners := 0 |}, [])
  end.

(** *** [dragStart$.pipe(take(1))] of one subscription *)

Definition onDragStart (pg : Page) (e : NativeEvent) (target : Elem)
    (st : Store) (i : Inner) : Store * Inner * list DragDropPayload :=
  if dragStartPending i then
    match closest pg target (Options.dragElementSelector opts) with
    | Some dragElement =>
        let st := flushRectCache st in
        let payload :=
          createPayload DragStart e (getCombinedSelectedElements pg dragElement)
            (getClosestScrollContainer pg dragElement) None None in
        (emit payload st,
         {| dragStartPending := false; dragEndPending := dragEndPending i;
            throttledUntil := throttledUntil i; prevOffset := prevOffset i;
            prevResult := prevResult i |},
         [payload])
    | None => (st, i, [])
    end
  else (st, i, []).

(** *** [dragOver$.pipe(takeUntil(dragEnd$))] of one subscription *)

Definition setThrottledUntil (u : option nat) (i : Inner) : Inner :=
  {| dragStartPending := dragStartPending i; dragEndPending := dragEndPending i;
     throttledUntil := u; prevOffset := prevOffset i; prevResult := prevResult i |}.

Definition setPrevOffset (o : float) (i : Inner) : Inner :=
  {| dragStartPending := dragStartPending i; dragEndPending := dragEndPending i;
     throttledUntil := throttledUntil i; prevOffset := Some o; prevResult := prevResult i |}.

Definition setPrevResult (r : DropPosition * Elem) (i : Inner) : Inner :=
  {| dragStartPending := dragStartPending i; dragEndPending := dragEndPending i;
     throttledUntil := throttledUntil i; prevOffset := prevOffset i; prevResult := Some r |}.

(** [dragOverThrottle ? throttleTime(dragOverThrottle) : tap()]. *)
Definition throttleStage (timeStamp : nat) (i : Inner) : option Inner :=
  match Options.dragOverThrottle opts with
  | 0 => Some i
  | S _ as duration =>
      match throttleTime duration timeStamp (throttledUntil i) with
      | Some u => Some (setThrottledUntil u i)
      | None => None
      end
  end.

(** [dragEvent[property]], with [property] the offset along the axis. *)
Definition axisOffset (offsetX offsetY : float) : float :=
  if Options.vertical opts then offsetY else offsetX.

(** [distinctUntilChanged(([offset], [offset2]) => offset === offset2)]. *)
Definition sameOffset (i : Inner) (offset : float) : bool :=
  match prevOffset i with
  | Some previous => Num.seq previous offset
  | None => false
  end.

(** [distinctUntilChanged((e, e2) => e.position === e2.position &&
    e.dropElement === e2.dropElement)]. *)
Definition sameResult (i : Inner) (position : DropPosition) (dropElement : Elem) : bool :=
  match prevResult i with
  | Some (p, d) => bool_decide (p = position) && bool_decide (d = dropElement)
  | None => false
  end.

(** The stages after the throttle.  Reading [currentPayload] before the
    first emission would be a [TypeError]; no subscription exists then
    (lemma [run_currentPayload]) and the case yields nothing. *)
Definition dragOverStages (pg : Page) (e : NativeEvent) (offset : float) (target : Elem)
    (st : Store) (i : Inner) : Store * Inner * list DragDropPayload :=
  let found := closest pg target (Options.dropElementSelector opts) in
  if sameOffset i offset then (st, i, [])
  else
    let i := setPrevOffset offset i in
    match found with
    | None => (st, i, [])
    | Some dropElement =>
        match currentPayload st with
        | None => (st, i, [])
        | Some current =>
            let '(position, cache) :=
              calcPositionLocal pg (rectCache st) dropElement
                (dragElements current !! 0) offset in
            let st := setRectCache cache st in
            if sameResult i position dropElement then (st, i, [])
            else
              let i := setPrevResult (position, dropElement) i in
              if bool_decide (position ≠ PosNone)
                 && contains pg (Options.container opts) dropElement
              then
                let payload :=
                  createPayload DragOver e (dragElements current)
                    (getClosestScrollContainer pg dropElement)
                    (Some dropElement) (Some position) in
                (emit payload st, i, [payload])
              else (st, i, [])
        end
    end.

Definition onDragOver (pg : Page) (e : NativeEvent) (timeStamp : nat)
    (offsetX offsetY : float) (target : Elem) (st : Store) (i : Inner)
    : Store * Inner * list DragDropPayload :=
  if dragEndPending i then
    match throttleStage timeStamp i with
    | Some i => dragOverStages pg e (axisOffset offsetX offsetY) target st i
    | None => (st, i, [])
    end
  else (st, i, []).

(** *** [dragEnd$] of one subscription

    Both listeners of the subscription run the [map]: the notifier of
    [takeUntil], whose payload is dropped and which stops [dragOver$], and
    [take(1)], whose payload is emitted.  The fourth argument of
    [createPayload] is [currentPayload.container]. *)
Definition onDragEnd (pg : Page) (e : NativeEvent) (st : Store) (i : Inner)
    : Store * Inner * list DragDropPayload :=
  if dragEndPending i then
    let i := {| dragStartPending := dragStartPending i; dragEndPending := false;
                throttledUntil := throttledUntil i; prevOffset := prevOffset i;
                prevResult := prevResult i |} in
    match currentPayload st with
    | None => (st, i, [])
    | Some current =>
        let st :=
          setAttributesTo_draggable_false pg (Options.dragElementSelector opts) None st in
        let payload :=
          createPayload DragEnd e (dragElements current)
            (ScrollElement (container current))
            (dropElement current) (position current) in
        (emit payload st, i, [payload])
    end
  else (st, i, []).

(** *** The merge *)

(** A native event reaches the listeners of the subscriptions in the order
    in which the subscriptions were made; each emission is stored in
    [currentPayload] before the next listener runs. *)
Fixpoint forInners (f : Store → Inner → Store * Inner * list DragDropPayload)
    (st : Store) (l : list Inner) : Store * list Inner * list DragDropPayload :=
  match l with
  | [] => (st, [], [])
  | i :: l =>
      let '(st, i, out) := f st i in
      let '(st, l, out') := forInners f st l in
      (st, i :: l, out ++ out')
  end.

Definition withInners (s : Engine)
    (f : Store → Inner → Store * Inner * list DragDropPayload)
    : Engine * list DragDropPayload :=
  let '(st, l, out) := forInners f (store s) (inners s) in
  ({| store := st; inners := l; mouseupListeners := mouseupListeners s |}, out).

(** One native event, dispatched on the page as it is then. *)
Definition step (s : Engine) (pe : Page * NativeEvent) : Engine * list DragDropPayload :=
  let '(pg, e) := pe in
  match e with
  | mousedown target => onMouseDown pg e target s
  | mouseup => onMouseUp pg s
  | dragstart target => withInners s (onDragStart pg e target)
  | dragover timeStamp offsetX offsetY target =>
      withInners s (onDragOver pg e timeStamp offsetX offsetY target)
  | dragend => withInners s (onDragEnd pg e)
  end.

(** The engine from state [s] over a sequence of native events: the final
    state and the payloads emitted, in order. *)
Fixpoint runFrom (s : Engine) (events : list (Page * NativeEvent))
    : Engine * list DragDropPayload :=
  match events with
  | [] => (s, [])
  | pe :: events =>
      let '(s, out) := step s pe in
      let '(s, out') := runFrom s events in
      (s, out ++ out')
  end.

Definition run (events : list (Page * NativeEvent)) : Engine * list DragDropPayload :=
  runFrom initial events.

End engine.

(** [createDragDropObservable(options)], observed over a sequence of native
    events: the payloads a subscriber receives. *)
Definition createDragDropObservable (options : Partial.t)
    (events : list (Page * NativeEvent)) : list DragDropPayload :=
  (run (optionsExtended options) events).2.


(** ** The dragged elements by reference

    [getSelectedElements()] returns an array object, and
    [getCombinedSelectedElements] hands on that very object when it includes
    the dragged element; [createPayload] stores it, and [dragOver$] and
    [dragEnd$] take it from [currentPayload.dragElements].  A payload's
    [dragElements] is then the application's own array: what it holds is
    what the application has made of it by the time it is read.  The payloads
    above carry the contents of their array when they are emitted; here the
    identity of the array is followed too. *)

(** The application's arrays when an event is dispatched: the identity of the
    array object the provider returns now, whose contents are the provider's
    answer on the page, and the contents of the array objects it returned
    before.  The handlers of one event all run in its dispatch, so the
    provider gives them one answer: every call made for an event returns
    [provided]. *)
Record Arrays := {
  provided : nat;
  contentsOf : nat → list Elem;
}.

(** The contents of the array object [α] when an event is dispatched. *)
Definition readArray (opts : Options.t) (arrays : Arrays) (pg : Page) (α : nat) : list Elem :=
  match Options.getSelectedElements opts with
  | Some getSelectedElements =>
      if bool_decide (α = provided arrays) then getSelectedElements pg
      else contentsOf arrays α
  | None => contentsOf arrays α
  end.

(** The engine, and which array object [currentPayload.dragElements] is: the
    provider's array [Some α], or an array the engine built itself,
    [[dragElement]] or [[...selectedElements, item]], that nothing else
    refers to ([None]). *)
Record EngineByRef := {
  engine : Engine;
  shared : option nat;
}.

Definition initialByRef : EngineByRef := {| engine := initial; shared := None |}.

Definition setDragElements (l : list Elem) (p : DragDropPayload) : DragDropPayload :=
  {| type := type p; originalEvent := originalEvent p; dropElement := dropElement p;
     dragElements := l; scrollContainer := scrollContainer p; position := position p;
     options := options p; container := container p |}.

(** What the handlers of an event find in [currentPayload]: when its
    [dragElements] is the provider's array, the contents that array has now. *)
Definition refresh (opts : Options.t) (arrays : Arrays) (pg : Page) (s : EngineByRef)
    : Engine :=
  match shared s, currentPayload (store (engine s)) with
  | Some α, Some current =>
      {| store :=
           {| currentPayload := Some (setDragElements (readArray opts arrays pg α) current);
              rectCache := rectCache (store (engine s));
              draggable := draggable (store (engine s)) |};
         inners := inners (engine s);
         mouseupListeners := mouseupListeners (engine s) |}
  | _, _ => engine s
  end.

(** The array object [getCombinedSelectedElements] returns at a [dragstart]:
    the provider's [selectedElements] when it includes the dragged element,
    else a new array. *)
Definition sharedAtDragStart (opts : Options.t) (arrays : Arrays) (pg : Page)
    (target : Elem) : option nat :=
  match Options.getSelectedElements opts,
        closest pg target (Options.dragElementSelector opts) with
  | Some getSelectedElements, Some dragElement =>
      if bool_decide (dragElement ∈ getSelectedElements pg) then Some (provided arrays)
      else None
  | _, _ => None
  end.

(** One native event: each payload with the array object its [dragElements]
    is.  [mousedown$] and [dragStart$] store a new object, [dragOver$] and
    [dragEnd$] pass on the one of [currentPayload]. *)
Definition stepByRef (opts : Options.t) (s : EngineByRef)
    (ev : Arrays * Page * NativeEvent)
    : EngineByRef * list (DragDropPayload * option nat) :=
  let '(arrays, pg, e) := ev in
  let r := step opts (refresh opts arrays pg s) (pg, e) in
  let α :=
    match e, r.2 with
    | mousedown _, _ :: _ => None
    | dragstart target, _ :: _ => sharedAtDragStart opts arrays pg target
    | _, _ => shared s
    end in
  ({| engine := r.1; shared := α |}, (λ p, (p, α)) <$> r.2).

Fixpoint runByRefFrom (opts : Options.t) (s : EngineByRef)
    (events : list (Arrays * Page * NativeEvent))
    : EngineByRef * list (DragDropPayload * option nat) :=
  match events with
  | [] => (s, [])
  | ev :: events =>
      let '(s, out) := stepByRef opts s ev in
      let '(s, out') := runByRefFrom opts s events in
      (s, out ++ out')
  end.

Definition runByRef (opts : Options.t) (events : list (Arrays * Page * NativeEvent))
    : EngineByRef * list (DragDropPayload * option nat) :=
  runByRefFrom opts initialByRef events.


(** ** Predicates on states and payload streams *)

(** A payload list is chained from the payload [prev] stored before it when
    each [DragOver] and [DragEnd] payload carries the dragged elements of the
    payload emitted just before it. *)
Fixpoint chained (prev : option DragDropPayload) (out : list DragDropPayload) : Prop :=
  match out with
  | [] => True
  | p :: out =>
      (type p = DragOver ∨ type p = DragEnd →
       ∃ q, prev = Some q ∧ dragElements p = dragElements q)
      ∧ chained (Some p) out
  end.

(** The payload stored after the payloads [out] were emitted. *)
Definition lastPayload (prev : option DragDropPayload) (out : list DragDropPayload)
    : option DragDropPayload :=
  match last out with Some p => Some p | None => prev end.

(** A handler tracks the store when what it emits is chained from the stored
    payload and the last payload it emits, if any, is the one stored after. *)
Definition tracks (f : Store → Inner → Store * Inner * list DragDropPayload) : Prop :=
  ∀ st i,
    chained (currentPayload st) (f st i).2
    ∧ currentPayload (f st i).1.1 = lastPayload (currentPayload st) (f st i).2.

(** No subscription exists before the first emission: when there is a
    subscription, [currentPayload] is assigned. *)
Definition assigned (s : Engine) : Prop :=
  inners s = [] ∨ is_Some (currentPayload (store s)).

(** A stream of payloads with their array objects is chained from the pair
    [prev] stored before it when each [DragOver] and [DragEnd] payload has
    the array object of the payload emitted just before it, and its contents
    too when the object is an array the engine built. *)
Fixpoint chainedByRef (prev : option (DragDropPayload * option nat))
    (out : list (DragDropPayload * option nat)) : Prop :=
  match out with
  | [] => True
  | pt :: out =>
      (type pt.1 = DragOver ∨ type pt.1 = DragEnd →
       ∃ qt, prev = Some qt ∧ pt.2 = qt.2
             ∧ (pt.2 = None → dragElements pt.1 = dragElements qt.1))
      ∧ chainedByRef (Some pt) out
  end.

(** The state of the engine agrees with the last pair emitted. *)
Definition agrees (s : EngineByRef) (prev : option (DragDropPayload * option nat)) : Prop :=
  match prev with
  | None => currentPayload (store (engine s)) = None
  | Some qt =>
      shared s = qt.2
      ∧ ∃ q, currentPayload (store (engine s)) = Some q
             ∧ (qt.2 = None → dragElements q = dragElements qt.1)
  end.

(** The native event is a [dragover]. *)
Definition isDragOver (pe : Page * NativeEvent) : Prop :=
  match pe.2 with dragover _ _ _ _ => True | _ => False end.

(** The three reasons for which the pipeline of a subscription discards a
    [dragover]: no drop element found, the rule [none], or a drop element the
    container does not contain.  [cp] is the stored payload. *)
Definition discards (opts : Options.t) (pg : Page) (target : Elem)
    (cp : option DragDropPayload) : Prop :=
  closest pg target (Options.dropElementSelector opts) = None
  ∨ ∃ dropElement,
      closest pg target (Options.dropElementSelector opts) = Some dropElement
      ∧ ((∃ current, cp = Some current
            ∧ localRule opts pg dropElement (dragElements current !! 0) = RuleNone)
         ∨ contains pg (Options.container opts) dropElement = false).

(** What a payload emitted while the payload [prev] is stored looks like, by
    its type: the shape [createPayload] gives it at each of its four call
    sites. *)
Definition emittedFrom (opts : Options.t) (prev : option DragDropPayload)
    (p : DragDropPayload) : Prop :=
  options p = opts ∧ container p = Options.container opts
  ∧ match type p with
    | BeforeDragStart =>
        (∃ d, dragElements p = [d]) ∧ dropElement p = None ∧ position p = None
    | DragStart =>
        dragElements p ≠ [] ∧ dropElement p = None ∧ position p = None
    | DragOver =>
        ∃ q d pos,
          prev = Some q ∧ dragElements p = dragElements q
          ∧ dropElement p = Some d ∧ position p = Some pos
          ∧ pos ≠ PosNone ∧ dragElements q !! 0 ≠ Some d
    | DragEnd =>
        ∃ q,
          prev = Some q ∧ dragElements p = dragElements q
          ∧ dropElement p = dropElement q ∧ position p = position q
          ∧ scrollContainer p = ScrollElement (container q)
    end.

(** Every payload of [out] stands in the relation [R] to the payload stored
    when it was emitted: [prev] for the first, its predecessor for the others. *)
Fixpoint linked (R : option DragDropPayload → DragDropPayload → Prop)
    (prev : option DragDropPayload) (out : list DragDropPayload) : Prop :=
  match out with
  | [] => True
  | p :: out => R prev p ∧ linked R (Some p) out
  end.

(** A handler links its payloads when they have the shape [emittedFrom]. *)
Definition links (opts : Options.t)
    (f : Store → Inner → Store * Inner * list DragDropPayload) : Prop :=
  ∀ st i, linked (emittedFrom opts) (currentPayload st) (f st i).2.

(** The payloads of a type in a stream, and the subscriptions whose
    [take(1)] of [dragStart$], of [dragEnd$], has not fired yet. *)
Definition countType (t : DragDropEventType) (out : list DragDropPayload) : nat :=
  length (filter (λ p, type p = t) out).

Definition pendingStarts (l : list Inner) : nat :=
  length (filter (λ i, dragStartPending i = true) l).

Definition pendingEnds (l : list Inner) : nat :=
  length (filter (λ i, dragEndPending i = true) l).

(** The native events of [document.body] and the document: every event but
    [mousedown] and [dragstart]. *)
Definition bodyEvent (pe : Page * NativeEvent) : Prop :=
  match pe.2 with
  | mousedown _ | dragstart _ => False
  | _ => True
  end.


(** ** A page and configurations to run the engine on *)

Module Demo.

(** A list in [document.body] (node 0): the items 1, 2 and 3 carry a
    [data-id] and are the only nodes a selector matches; item 2 lies in a
    scrollable box, node 7; every item is 100 by 100. *)
Definition item (el : Elem) : bool := bool_decide (el ∈ [1; 2; 3]).

Definition page (selection : list Elem) : Page :=
  {| isHTMLElement := λ _, true;
     closest := λ el selector,
       if item el && bool_decide (selector = "[data-id]") then Some el else None;
     contains := λ a b, bool_decide (a = document_body) || bool_decide (a = b);
     getAttribute := λ el name,
       if bool_decide (name = "data-id")
       then match el with 1 => Some "a" | 2 => Some "b" | 3 => Some "c" | _ => None end
       else None;
     querySelectorAll := λ _ selector,
       if bool_decide (selector = "[data-id]") then [1; 2; 3] else [];
     getBoundingClientRect := λ _, {| width := 100; height := 100 |};
     getClosestScrollContainer := λ el,
       if bool_decide (el = 2) then ScrollElement 7 else Window;
     selected := selection |}.

(** [{ getSelectedElements: () => selection }], the provider reading the
    page's selection model. *)
Definition selecting : Partial.t :=
  {| Partial.container := None; Partial.dragElementSelector := None;
     Partial.dropElementSelector := None; Partial.handleSelector := None;
     Partial.getElementId := None; Partial.dropPositionFn := None;
     Partial.vertical := None; Partial.dragOverThrottle := None;
     Partial.threshold := None; Partial.onBeforeDragStart := None;
     Partial.getSelectedElements := Some (Some selected) |}.

(** [{ dragElementSelector: ".item" }]: no handle selector supplied. *)
Definition items : Partial.t :=
  {| Partial.container := None; Partial.dragElementSelector := Some ".item";
     Partial.dropElementSelector := None; Partial.handleSelector := None;
     Partial.getElementId := None; Partial.dropPositionFn := None;
     Partial.vertical := None; Partial.dragOverThrottle := None;
     Partial.threshold := None; Partial.onBeforeDragStart := None;
     Partial.getSelectedElements := None |}.

(** [{ dragElementSelector: ".item", handleSelector: undefined }]. *)
Definition itemsNoHandle : Partial.t :=
  {| Partial.container := None; Partial.dragElementSelector := Some ".item";
     Partial.dropElementSelector := None; Partial.handleSelector := Some None;
     Partial.getElementId := None; Partial.dropPositionFn := None;
     Partial.vertical := None; Partial.dragOverThrottle := None;
     Partial.threshold := None; Partial.onBeforeDragStart := None;
     Partial.getSelectedElements := None |}.

(** The page with nothing selected, and with items 1 and 2 selected. *)
Definition P : Page := page [].
Definition Q : Page := page [1; 2].

(** A click on item 1, then a drag of item 1 released at once. *)
Definition clickThenDrag : list (Page * NativeEvent) :=
  [(P, mousedown 1); (P, mouseup); (P, mousedown 1); (P, dragstart 1); (P, dragend)].

(** Item 1 dragged over item 2 and released. *)
Definition dragOneOverTwo : list (Page * NativeEvent) :=
  [(P, mousedown 1); (P, dragstart 1); (P, dragover 0 5 20 2); (P, dragend)].

(** Item 1 dragged and released with no [dragover] in between. *)
Definition dragOneAndRelease : list (Page * NativeEvent) :=
  [(P, mousedown 1); (P, dragstart 1); (P, dragend)].

(** With items 1 and 2 selected, item 2 is dragged over itself, then over
    item 1. *)
Definition dragSelectionOverPrimary : list (Page * NativeEvent) :=
  [(Q, mousedown 2); (Q, dragstart 2); (Q, dragover 0 5 20 2); (Q, dragover 100 5 30 1)].

(** With items 1 and 2 selected, item 2 is dragged; the selection changes to
    item 3 alone, then to nothing, while the drag goes on. *)
Definition reselect : list (Page * NativeEvent) :=
  [(Q, mousedown 2); (Q, dragstart 2); (page [3], dragover 0 5 20 3); (P, dragend)].

(** Item 1 dragged over item 2 twice at the same offset. *)
Definition hoverTwice : list (Page * NativeEvent) :=
  [(P, mousedown 1); (P, dragstart 1); (P, dragover 0 5 20 2); (P, dragover 100 5 20 2)].

(** Item 1 grabbed and its drag started. *)
Definition grabOne : list (Page * NativeEvent) :=
  [(P, mousedown 1); (P, dragstart 1)].

(** A click on item 1, then the [dragend] of a native drag the engine saw no
    [dragstart] of. *)
Definition clickThenForeignDragEnd : list (Page * NativeEvent) :=
  [(P, mousedown 1); (P, mouseup); (P, dragend)].

(** The arrays of the application: one array object, number 0, which the
    provider returns; and, later, a second one, number 1, which the provider
    returns from then on while the first still holds items 1 and 2. *)
Definition oneArray : Arrays := {| provided := 0; contentsOf := λ _, [] |}.

Definition secondArray : Arrays :=
  {| provided := 1; contentsOf := λ α, match α with 0 => [1; 2] | _ => [] end |}.

(** With items 1 and 2 selected, item 2 is dragged; item 3 is then pushed
    onto the selected array, in place, and the drag moves over item 3. *)
Definition pushInPlace : list (Arrays * Page * NativeEvent) :=
  [(oneArray, Q, mousedown 2); (oneArray, Q, dragstart 2);
   (oneArray, page [1; 2; 3], dragover 0 5 20 3)].

(** With items 1 and 2 selected, item 2 is dragged; the provider then returns
    another array, holding item 3, and the first array is left as it was. *)
Definition reassign : list (Arrays * Page * NativeEvent) :=
  [(oneArray, Q, mousedown 2); (oneArray, Q, dragstart 2);
   (secondArray, page [3], dragover 0 5 20 3); (secondArray, page [3], dragend)].

(** A click on item 1, then item 1 dragged over item 2 twice at the same
    offset. *)
Definition clickThenHoverTwice : list (Page * NativeEvent) :=
  [(P, mousedown 1); (P, mouseup); (P, mousedown 1); (P, dragstart 1);
   (P, dragover 0 5 20 2); (P, dragover 100 5 20 2)].

(** What the properties below read of a payload. *)
Definition view (p : DragDropPayload)
    : DragDropEventType * list Elem * option Elem * option DropPosition * ScrollContainer :=
  (type p, dragElements p, dropElement p, position p, scrollContainer p).

End Demo.

(** * Properties *)

(** ** Numbers *)

Lemma seq_not_lt a b : Num.seq a b = true → Num.lt a b = false.
Proof.
  unfold Num.seq, Num.lt. rewrite FloatAxioms.eqb_spec, FloatAxioms.ltb_spec.
  unfold SFeqb, SFltb. destruct (SFcompare _ _) as [[]|]; congruence.
Qed.

Lemma lt_irrefl a : Num.lt a a = false.
Proof.
  unfold Num.lt. rewrite FloatAxioms.ltb_spec. unfold SFltb.
  destruct (Prim2SF a) as [[]|[]| |s m e]; simpl; try reflexivity.
  change (PosDef.Pos.compare_cont Eq m m) with (Pos.compare m m).
  rewrite Z.compare_refl, Pos.compare_refl. by destruct s.
Qed.

(** ** The position calculator *)

Lemma calcPosition_in_table rule t o s :
  position_table t o s rule (calcPosition rule (Some t) o s).
Proof.
  destruct rule; simpl.
  - destruct (Num.lt o _) eqn:Hb; [by constructor|].
    destruct (Num.gt o _) eqn:Ha; by constructor.
  - destruct (Num.lt o _) eqn:Hb; by constructor.
  - destruct (Num.lt o _) eqn:Hb; by constructor.
  - constructor.
  - constructor.
  - constructor.
  - constructor.
Qed.

Lemma position_table_functional rule t o s p q :
  position_table t o s rule p → position_table t o s rule q → p = q.
Proof. intros Hp Hq. destruct Hp; inversion Hq; congruence. Qed.

(** C1: [calcPosition] returns exactly the position of the table of section
    4.1, for every rule, threshold, offset and size; the comparisons are
    strict, so at an offset equal to [size * t] the rules [all] and [notAfter]
    never answer [before], and [around] answers [after] at [size / 2]. *)
Theorem calcPosition_matches_table (rule : DropPositionRules) (t o s : float) :
  (∀ p, calcPosition rule (Some t) o s = p ↔ position_table t o s rule p)
  ∧ (calcPosition RuleAll (Some t) o s = PosBefore ↔ Num.lt o (s * t)%float = true)
  ∧ (calcPosition RuleNotAfter (Some t) o s = PosBefore ↔ Num.lt o (s * t)%float = true)
  ∧ (calcPosition RuleAround (Some t) o s = PosBefore ↔ Num.lt o (s / 2)%float = true)
  ∧ (Num.seq o (s * t)%float = true →
       calcPosition RuleAll (Some t) o s ≠ PosBefore
       ∧ calcPosition RuleNotAfter (Some t) o s = PosIn)
  ∧ (Num.seq o (s / 2)%float = true → calcPosition RuleAround (Some t) o s = PosAfter)
  ∧ calcPosition RuleAll (Some t) (s * t)%float s ≠ PosBefore.
Proof.
  split; [|split; [|split; [|split; [|split; [|split]]]]].
  - intros p. split.
    + intros <-. apply calcPosition_in_table.
    + intros Hp. eapply position_table_functional; [apply calcPosition_in_table|done].
  - simpl. destruct (Num.lt o _); [done|].
    destruct (Num.gt o _); split; congruence.
  - simpl. destruct (Num.lt o _); split; congruence.
  - simpl. destruct (Num.lt o _); split; congruence.
  - intros Heq%seq_not_lt. simpl. rewrite Heq. split; [|done].
    destruct (Num.gt o _); congruence.
  - intros Heq%seq_not_lt. simpl. by rewrite Heq.
  - simpl. rewrite lt_irrefl. destruct (Num.gt _ _); congruence.
Qed.

(** The scenario of the specification: threshold 0.3, rule [all], height 100. *)
Lemma calcPosition_matches_table_witness :
  Num.seq 30 (100 * threshold_default)%float = true
  ∧ calcPosition RuleAll None 20 100 = PosBefore
  ∧ calcPosition RuleAll None 50 100 = PosIn
  ∧ calcPosition RuleAll None 90 100 = PosAfter
  ∧ calcPosition RuleAll (Some threshold_default) 30 100 ≠ PosBefore
  ∧ calcPosition RuleAll None 30 100 = PosIn.
Proof.
  split; [reflexivity|]. split; [reflexivity|]. split; [reflexivity|].
  split; [reflexivity|]. split; [|reflexivity].
  pose proof (calcPosition_matches_table RuleAll threshold_default 30 100)
    as (_ & _ & _ & _ & Hb & _).
  apply Hb. reflexivity.
Defined.

Lemma calcPosition_none rule t o s :
  calcPosition rule t o s = PosNone ↔ rule = RuleNone.
Proof.
  destruct rule; simpl; repeat (destruct (Num.lt _ _) || destruct (Num.gt _ _));
    split; congruence.
Qed.

(** ** Configuration *)

(** C4, on the code: with [{ dragElementSelector: ".item" }] and no handle
    selector supplied, the resolved handle selector is the default
    ["[data-id]"], not the supplied drag-element selector; the fallback is
    taken when the key is present with a falsy value. *)
Theorem handleSelector_absent_keeps_default :
  Options.handleSelector (optionsExtended Demo.items) = "[data-id]"
  ∧ Options.dragElementSelector (optionsExtended Demo.items) = ".item"
  ∧ Options.handleSelector (optionsExtended Demo.items)
    ≠ Options.dragElementSelector (optionsExtended Demo.items)
  ∧ Options.handleSelector (optionsExtended Demo.itemsNoHandle) = ".item".
Proof. repeat split; done. Qed.

Lemma handleSelector_absent options :
  Partial.handleSelector options = None →
  Options.handleSelector (optionsExtended options) = "[data-id]".
Proof. intros H. unfold optionsExtended. simpl. by rewrite H. Qed.

Lemma handleSelector_falsy options h :
  Partial.handleSelector options = Some h → truthy h = false →
  Options.handleSelector (optionsExtended options)
  = Options.dragElementSelector (optionsExtended options).
Proof. intros H Hf. unfold optionsExtended. simpl. rewrite H. simpl. by rewrite Hf. Qed.

(** ** The engine: what every step preserves *)

Lemma lastPayload_app prev a b :
  lastPayload prev (a ++ b) = lastPayload (lastPayload prev a) b.
Proof.
  unfold lastPayload. rewrite last_app. by destruct (last b).
Qed.

Lemma lastPayload_cons prev p out :
  lastPayload prev (p :: out) = lastPayload (Some p) out.
Proof. apply (lastPayload_app prev [p] out). Qed.

Lemma chained_app prev a b :
  chained prev (a ++ b) ↔ chained prev a ∧ chained (lastPayload prev a) b.
Proof.
  revert prev. induction a as [|p a IH]; intros prev; simpl.
  - unfold lastPayload. simpl. tauto.
  - rewrite IH, lastPayload_cons. tauto.
Qed.

Lemma chained_same_dragElements q mid :
  chained (Some q) mid →
  Forall (λ p, type p = DragOver ∨ type p = DragEnd) mid →
  Forall (λ p, dragElements p = dragElements q) mid.
Proof.
  revert q. induction mid as [|p mid IH]; intros q Hc Hty; [constructor|].
  destruct Hc as [Hp Hc]. inversion Hty as [|? ? Hpty Hmid]; subst.
  destruct (Hp Hpty) as (q' & [= <-] & Heq).
  constructor; [done|]. rewrite <- Heq. by apply IH.
Qed.

Section engine_facts.

Variable opts : Options.t.

Lemma forInners_length f st l : length (forInners f st l).1.2 = length l.
Proof.
  revert st. induction l as [|i l IH]; intros st; simpl; [done|].
  destruct (f st i) as [[st1 i1] out1]. specialize (IH st1).
  destruct (forInners f st1 l) as [[st2 l2] out2]. simpl in *. by rewrite IH.
Qed.

Lemma forInners_tracks f st l :
  tracks f →
  chained (currentPayload st) (forInners f st l).2
  ∧ currentPayload (forInners f st l).1.1
    = lastPayload (currentPayload st) (forInners f st l).2.
Proof.
  intros Hf. revert st. induction l as [|i l IH]; intros st; simpl; [done|].
  destruct (Hf st i) as [Hc Hl]. destruct (f st i) as [[st1 i1] out1].
  destruct (IH st1) as [Hc' Hl']. destruct (forInners f st1 l) as [[st2 l2] out2].
  simpl in *. rewrite chained_app, lastPayload_app, <- Hl. done.
Qed.

Lemma onDragStart_tracks pg e target : tracks (onDragStart opts pg e target).
Proof.
  intros st i. unfold onDragStart.
  destruct (dragStartPending i); [|done].
  destruct (closest pg target _); [|done].
  simpl. split; [|done]. split; [|done]. intros [|]; discriminate.
Qed.

Lemma dragOverStages_tracks pg e offset target :
  tracks (dragOverStages opts pg e offset target).
Proof.
  intros st i. unfold dragOverStages.
  destruct (sameOffset i offset); [done|].
  destruct (closest pg target _) as [d|]; [|done].
  destruct (currentPayload st) as [current|] eqn:Hcur; [|done].
  destruct (calcPositionLocal _ _ _ _ _ _) as [position cache].
  destruct (sameResult _ _ _); [by simpl; rewrite ?Hcur|].
  destruct (_ && _); [|by simpl; rewrite ?Hcur].
  simpl. split; [|done]. split; [|done]. intros _. by exists current.
Qed.

Lemma onDragOver_tracks pg e timeStamp offsetX offsetY target :
  tracks (onDragOver opts pg e timeStamp offsetX offsetY target).
Proof.
  intros st i. unfold onDragOver.
  destruct (dragEndPending i); [|done].
  destruct (throttleStage opts timeStamp i); [|done].
  apply dragOverStages_tracks.
Qed.

Lemma onDragEnd_tracks pg e : tracks (onDragEnd opts pg e).
Proof.
  intros st i. unfold onDragEnd.
  destruct (dragEndPending i); [|done].
  destruct (currentPayload st) as [current|] eqn:Hcur; [|done].
  simpl. split; [|done]. split; [|done]. intros _. by exists current.
Qed.

Lemma withInners_tracks s f :
  tracks f →
  chained (currentPayload (store s)) (withInners s f).2
  ∧ currentPayload (store (withInners s f).1)
    = lastPayload (currentPayload (store s)) (withInners s f).2.
Proof.
  intros Hf. unfold withInners.
  pose proof (forInners_tracks f (store s) (inners s) Hf) as H.
  by destruct (forInners f (store s) (inners s)) as [[st l] out].
Qed.

Lemma step_tracks s pe :
  chained (currentPayload (store s)) (step opts s pe).2
  ∧ currentPayload (store (step opts s pe).1)
    = lastPayload (currentPayload (store s)) (step opts s pe).2.
Proof.
  destruct pe as [pg [target| |target|timeStamp offsetX offsetY target|]]; simpl.
  - unfold onMouseDown. destruct (_ && _); [|done].
    destruct (closest pg target (Options.handleSelector opts)); [|done].
    destruct (closest pg target (Options.dragElementSelector opts)); [|done].
    simpl. split; [|done]. split; [|done]. intros [|]; discriminate.
  - unfold onMouseUp. by destruct (mouseupListeners s).
  - apply withInners_tracks, onDragStart_tracks.
  - apply withInners_tracks, onDragOver_tracks.
  - apply withInners_tracks, onDragEnd_tracks.
Qed.

Lemma runFrom_tracks s events :
  chained (currentPayload (store s)) (runFrom opts s events).2
  ∧ currentPayload (store (runFrom opts s events).1)
    = lastPayload (currentPayload (store s)) (runFrom opts s events).2.
Proof.
  revert s. induction events as [|pe events IH]; intros s; simpl; [done|].
  destruct (step_tracks s pe) as [Hc Hl]. destruct (step opts s pe) as [s1 out1].
  destruct (IH s1) as [Hc' Hl']. destruct (runFrom opts s1 events) as [s2 out2].
  simpl in *. rewrite chained_app, lastPayload_app, <- Hl. done.
Qed.

Lemma step_assigned s pe : assigned s → assigned (step opts s pe).1.
Proof.
  intros Hs.
  assert (Hkeep : ∀ f, tracks f → assigned (withInners s f).1).
  { intros f Hf. destruct (withInners_tracks s f Hf) as [_ Hl].
    pose proof (forInners_length f (store s) (inners s)) as Hlen.
    unfold withInners in *.
    destruct (forInners f (store s) (inners s)) as [[st l] out]. simpl in *.
    destruct Hs as [Hnil|Hsome].
    - left. simpl. rewrite Hnil in Hlen. by destruct l.
    - right. simpl. rewrite Hl. unfold lastPayload. by destruct (last out). }
  destruct pe as [pg [target| |target|timeStamp offsetX offsetY target|]]; simpl.
  - unfold onMouseDown. destruct (_ && _); [|done].
    destruct (closest pg target (Options.handleSelector opts)); [|done].
    destruct (closest pg target (Options.dragElementSelector opts)); [|done].
    right. simpl. eauto.
  - unfold onMouseUp. by destruct (mouseupListeners s).
  - apply Hkeep, onDragStart_tracks.
  - apply Hkeep, onDragOver_tracks.
  - apply Hkeep, onDragEnd_tracks.
Qed.

Lemma run_currentPayload events i :
  i ∈ inners (run opts events).1 → is_Some (currentPayload (store (run opts events).1)).
Proof.
  assert (H : ∀ s, assigned s → assigned (runFrom opts s events).1).
  { induction events as [|pe events IH]; intros s Hs; simpl; [done|].
    pose proof (step_assigned s pe Hs) as H1. destruct (step opts s pe) as [s1 out1].
    specialize (IH s1 H1). by destruct (runFrom opts s1 events). }
  intros Hi. destruct (H initial) as [Hnil|Hsome]; [by left| |done].
  unfold run in Hi. rewrite Hnil in Hi. by apply elem_of_nil in Hi.
Qed.

End engine_facts.

(** ** Where the emitted payloads come from *)

Section emitted.

Variable opts : Options.t.

Lemma forInners_emitted f st l p :
  p ∈ (forInners f st l).2 → ∃ st' i, p ∈ (f st' i).2.
Proof.
  revert st. induction l as [|i l IH]; intros st; simpl.
  - intros H. by apply elem_of_nil in H.
  - pose proof (IH (f st i).1.1) as IH'.
    destruct (f st i) as [[st1 i1] out1] eqn:Hf. simpl in IH'.
    destruct (forInners f st1 l) as [[st2 l2] out2]. simpl in *.
    intros [H|H]%elem_of_app; [|by apply IH'].
    exists st, i. by rewrite Hf.
Qed.

Lemma withInners_emitted s f p :
  p ∈ (withInners s f).2 → ∃ st i, p ∈ (f st i).2.
Proof.
  unfold withInners. pose proof (forInners_emitted f (store s) (inners s) p) as H.
  by destruct (forInners f (store s) (inners s)) as [[st l] out].
Qed.

Lemma runFrom_emitted s events p :
  p ∈ (runFrom opts s events).2 → ∃ s' pe, pe ∈ events ∧ p ∈ (step opts s' pe).2.
Proof.
  revert s. induction events as [|pe events IH]; intros s; simpl.
  - intros H. by apply elem_of_nil in H.
  - pose proof (IH (step opts s pe).1) as IH'.
    destruct (step opts s pe) as [s1 out1] eqn:Hs. simpl in IH'.
    destruct (runFrom opts s1 events) as [s2 out2]. simpl in *.
    intros [H|H]%elem_of_app.
    + exists s, pe. rewrite Hs. split; [left|done].
    + destruct (IH' H) as (s' & pe' & Hin & Hp). exists s', pe'. split; [by right|done].
Qed.

(** The payload types each native event can give rise to. *)
Lemma step_emitted_type s pg e p :
  p ∈ (step opts s (pg, e)).2 →
  match e with
  | mousedown _ => type p = BeforeDragStart
  | mouseup => False
  | dragstart _ => type p = DragStart
  | dragover _ _ _ _ => type p = DragOver
  | dragend => type p = DragEnd
  end.
Proof.
  destruct e as [target| |target|timeStamp offsetX offsetY target|]; simpl.
  - unfold onMouseDown. destruct (_ && _); [|by intros ?%elem_of_nil].
    destruct (closest pg target (Options.handleSelector opts)); [|by intros ?%elem_of_nil].
    destruct (closest pg target (Options.dragElementSelector opts));
      [|by intros ?%elem_of_nil].
    simpl. by intros ->%list_elem_of_singleton.
  - unfold onMouseUp. destruct (mouseupListeners s); by intros ?%elem_of_nil.
  - intros (st' & i & Hp')%withInners_emitted. revert Hp'. unfold onDragStart.
    destruct (dragStartPending i); [|by intros ?%elem_of_nil].
    destruct (closest pg target _); [|by intros ?%elem_of_nil].
    simpl. by intros ->%list_elem_of_singleton.
  - intros (st' & i & Hp')%withInners_emitted. revert Hp'.
    unfold onDragOver, dragOverStages.
    destruct (dragEndPending i); [|by intros ?%elem_of_nil].
    destruct (throttleStage opts timeStamp i) as [i1|]; [|by intros ?%elem_of_nil].
    destruct (sameOffset i1 _); [by intros ?%elem_of_nil|].
    destruct (closest pg target _); [|by intros ?%elem_of_nil].
    destruct (currentPayload st'); [|by intros ?%elem_of_nil].
    destruct (calcPositionLocal _ _ _ _ _ _) as [position cache].
    destruct (sameResult _ _ _); [by intros ?%elem_of_nil|].
    destruct (_ && _); [|by intros ?%elem_of_nil].
    simpl. by intros ->%list_elem_of_singleton.
  - intros (st' & i & Hp')%withInners_emitted. revert Hp'. unfold onDragEnd.
    destruct (dragEndPending i); [|by intros ?%elem_of_nil].
    destruct (currentPayload st'); [|by intros ?%elem_of_nil].
    simpl. by intros ->%list_elem_of_singleton.
Qed.

(** A [DragStart] payload carries [getCombinedSelectedElements] of the
    element the [dragstart] resolved to, on the page as it was then. *)
Lemma step_dragstart_payload s pg target p :
  p ∈ (step opts s (pg, dragstart target)).2 →
  ∃ dragElement,
    closest pg target (Options.dragElementSelector opts) = Some dragElement
    ∧ dragElements p = getCombinedSelectedElements opts pg dragElement.
Proof.
  simpl. intros (st' & i & Hp')%withInners_emitted. revert Hp'. unfold onDragStart.
  destruct (dragStartPending i); [|by intros ?%elem_of_nil].
  destruct (closest pg target _) as [dragElement|]; [|by intros ?%elem_of_nil].
  simpl. intros ->%list_elem_of_singleton. by exists dragElement.
Qed.

Lemma getCombinedSelectedElements_cases pg dragElement :
  getCombinedSelectedElements opts pg dragElement
  = match Options.getSelectedElements opts with
    | Some getSelectedElements =>
        if bool_decide (dragElement ∈ getSelectedElements pg)
        then getSelectedElements pg
        else getSelectedElements pg ++ [dragElement]
    | None => [dragElement]
    end.
Proof. unfold getCombinedSelectedElements. by destruct (Options.getSelectedElements opts). Qed.

End emitted.

(** ** The dragged elements *)

(** C3, as amended: every payload a [dragstart] gives rise to is a
    [DragStart] payload whose dragged elements are, with a provider
    configured, the current selection when the primary dragged element is a
    member of it and else the selection followed by the primary element; with
    no provider, the primary element alone. *)
Theorem dragStart_dragElements (opts : Options.t) (s : Engine) (pg : Page)
    (target : Elem) (p : DragDropPayload) :
  p ∈ (step opts s (pg, dragstart target)).2 →
  type p = DragStart
  ∧ ∃ dragElement,
      closest pg target (Options.dragElementSelector opts) = Some dragElement
      ∧ dragElements p
        = match Options.getSelectedElements opts with
          | Some getSelectedElements =>
              if bool_decide (dragElement ∈ getSelectedElements pg)
              then getSelectedElements pg
              else getSelectedElements pg ++ [dragElement]
          | None => [dragElement]
          end.
Proof.
  intros Hp. split; [by apply (step_emitted_type opts s pg (dragstart target))|].
  destruct (step_dragstart_payload opts s pg target p Hp) as (dragElement & Hc & Hd).
  exists dragElement. split; [done|]. by rewrite Hd, getCombinedSelectedElements_cases.
Qed.

(** With items 1 and 2 selected and item 2 dragged, the [DragStart] payload
    carries the selection, in its order. *)
Lemma dragStart_dragElements_witness :
  ∃ p,
    p ∈ (step (optionsExtended Demo.selecting)
           (run (optionsExtended Demo.selecting) [(Demo.Q, mousedown 2)]).1
           (Demo.Q, dragstart 2)).2
    ∧ type p = DragStart ∧ dragElements p = [1; 2].
Proof.
  eexists. split; [vm_compute; left|].
  match goal with |- type ?p = _ ∧ _ =>
    destruct (dragStart_dragElements (optionsExtended Demo.selecting)
                (run (optionsExtended Demo.selecting) [(Demo.Q, mousedown 2)]).1
                Demo.Q 2 p) as [Hty _]
  end; [vm_compute; left|].
  split; [exact Hty|reflexivity].
Defined.

(** C3, as the specification words it, fails: with items 1 and 2 selected and
    item 3 dragged, the [DragStart] payload carries the selection followed by
    item 3, not item 3 alone. *)
Lemma dragStart_outside_selection_not_singleton :
  ¬ (∀ (opts : Options.t) (s : Engine) (pg : Page) (target dragElement : Elem)
       (p : DragDropPayload),
       p ∈ (step opts s (pg, dragstart target)).2 →
       closest pg target (Options.dragElementSelector opts) = Some dragElement →
       dragElements p
       = match Options.getSelectedElements opts with
         | Some getSelectedElements =>
             if bool_decide (dragElement ∈ getSelectedElements pg)
             then getSelectedElements pg
             else [dragElement]
         | None => [dragElement]
         end).
Proof.
  intros H.
  pose (s := (run (optionsExtended Demo.selecting) [(Demo.Q, mousedown 3)]).1).
  pose (out := (step (optionsExtended Demo.selecting) s (Demo.Q, dragstart 3)).2).
  assert (Hout : ∃ p, p ∈ out ∧ dragElements p = [1; 2; 3]).
  { eexists. split; [vm_compute; left|reflexivity]. }
  destruct Hout as (p & Hp & Hd).
  specialize (H (optionsExtended Demo.selecting) s Demo.Q 3 3 p Hp eq_refl).
  rewrite Hd in H. vm_compute in H. discriminate.
Qed.

(** ** Discarded drag-over events *)

Section discard.

Variable opts : Options.t.

Lemma calcPositionLocal_none pg cache dropElement dragElement offset :
  (calcPositionLocal opts pg cache dropElement dragElement offset).1 = PosNone
  ↔ localRule opts pg dropElement dragElement = RuleNone.
Proof.
  unfold calcPositionLocal. destruct (getRectCached opts pg cache dropElement) as [r c].
  simpl. apply calcPosition_none.
Qed.

Lemma forInners_silent f (I : Store → Prop) :
  (∀ st i, I st → (f st i).2 = [] ∧ I (f st i).1.1) →
  ∀ l st, I st → (forInners f st l).2 = [] ∧ I (forInners f st l).1.1.
Proof.
  intros Hf. induction l as [|i l IH]; intros st Hst; simpl; [done|].
  destruct (Hf st i Hst) as [Hout Hst1]. destruct (f st i) as [[st1 i1] out1].
  destruct (IH st1 Hst1) as [Hout' Hst2]. destruct (forInners f st1 l) as [[st2 l2] out2].
  simpl in *. by subst.
Qed.

Lemma onDragOver_discards pg e timeStamp offsetX offsetY target cp st i :
  discards opts pg target cp → currentPayload st = cp →
  (onDragOver opts pg e timeStamp offsetX offsetY target st i).2 = []
  ∧ currentPayload (onDragOver opts pg e timeStamp offsetX offsetY target st i).1.1 = cp.
Proof.
  intros Hd <-. unfold onDragOver, dragOverStages.
  destruct (dragEndPending i); [|done].
  destruct (throttleStage opts timeStamp i) as [i1|]; [|done].
  destruct (sameOffset i1 _); [done|].
  destruct (closest pg target _) as [d|] eqn:Hfound; [|done].
  destruct (currentPayload st) as [current|] eqn:Hcur; [|by simpl; rewrite ?Hcur].
  destruct (calcPositionLocal _ _ _ _ _ _) as [position cache] eqn:Hpos.
  destruct (sameResult _ _ _); [by simpl; rewrite ?Hcur|].
  unfold discards in Hd. rewrite Hfound in Hd.
  destruct Hd as [Hnone|(d' & [= <-] & [(current' & [= <-] & Hrule)|Hout])]; [done| |].
  - assert (position = PosNone) as ->.
    { apply (calcPositionLocal_none pg (rectCache st) d _
               (axisOffset opts offsetX offsetY)) in Hrule.
      by rewrite Hpos in Hrule. }
    by simpl; rewrite ?Hcur.
  - rewrite Hout, andb_false_r. by simpl; rewrite ?Hcur.
Qed.

End discard.

(** C8: a [dragover] gives rise to no payload, in any state of the engine,
    when no element matching the drop-element selector is found from its
    target, when the position computed for the drop element is [none], or
    when the container does not contain the drop element; the step then
    returns normally and leaves the stored payload as it was. *)
Theorem dragOver_discarded (opts : Options.t) (s : Engine) (pg : Page)
    (timeStamp : nat) (offsetX offsetY : float) (target : Elem) :
  closest pg target (Options.dropElementSelector opts) = None
  ∨ (∃ dropElement,
       closest pg target (Options.dropElementSelector opts) = Some dropElement
       ∧ ((∃ current, currentPayload (store s) = Some current
             ∧ (calcPositionLocal opts pg (rectCache (store s)) dropElement
                  (dragElements current !! 0) (axisOffset opts offsetX offsetY)).1
               = PosNone)
          ∨ contains pg (Options.container opts) dropElement = false)) →
  (step opts s (pg, dragover timeStamp offsetX offsetY target)).2 = []
  ∧ currentPayload (store (step opts s (pg, dragover timeStamp offsetX offsetY target)).1)
    = currentPayload (store s).
Proof.
  intros H.
  assert (Hd : discards opts pg target (currentPayload (store s))).
  { destruct H as [Hnone|(d & Hfound & [(current & Hcur & Hpos)|Hout])]; [by left| |].
    - right. exists d. split; [done|]. left. exists current. split; [done|].
      by apply calcPositionLocal_none in Hpos.
    - right. exists d. split; [done|]. by right. }
  simpl. unfold withInners.
  pose proof (forInners_silent
    (onDragOver opts pg (dragover timeStamp offsetX offsetY target)
       timeStamp offsetX offsetY target)
    (λ st, currentPayload st = currentPayload (store s))) as Hsilent.
  destruct (Hsilent) with (l := inners s) (st := store s) as [Hout Hcur]; [|done|].
  - intros st i Hst. by apply onDragOver_discards.
  - destruct (forInners _ (store s) (inners s)) as [[st l] out]. done.
Qed.

(** Item 1, being dragged, is moved over itself, and over node 9, from which
    no drop element is found: nothing is emitted. *)
Lemma dragOver_discarded_witness :
  (step (optionsExtended Partial.empty)
     (run (optionsExtended Partial.empty) Demo.grabOne).1
     (Demo.P, dragover 0 5 20 1)).2 = []
  ∧ (step (optionsExtended Partial.empty)
       (run (optionsExtended Partial.empty) Demo.grabOne).1
       (Demo.P, dragover 0 5 20 9)).2 = [].
Proof.
  split.
  - apply (dragOver_discarded (optionsExtended Partial.empty)
             (run (optionsExtended Partial.empty) Demo.grabOne).1 Demo.P 0 5 20 1).
    right. exists 1. split; [reflexivity|]. left.
    eexists. split; [reflexivity|]. vm_compute. reflexivity.
  - apply (dragOver_discarded (optionsExtended Partial.empty)
             (run (optionsExtended Partial.empty) Demo.grabOne).1 Demo.P 0 5 20 9).
    left. reflexivity.
Defined.

(** ** Deduplication of drag-over events *)

Section dedup.

Variable opts : Options.t.

Lemma bool_decide_refl {A} `{EqDecision A} (x : A) : bool_decide (x = x) = true.
Proof. by apply bool_decide_eq_true_2. Qed.

Lemma getRectCached_again pg cache el r cache' :
  getRectCached opts pg cache el = (r, cache') →
  getRectCached opts pg cache' el = (r, cache').
Proof.
  unfold getRectCached.
  destruct (cache !! Options.getElementId opts pg el) as [r0|] eqn:Hl.
  - intros [= <- <-]. by rewrite Hl.
  - intros [= <- <-]. by rewrite lookup_insert_eq.
Qed.

Lemma calcPositionLocal_again pg cache dropElement dragElement offset position cache' :
  calcPositionLocal opts pg cache dropElement dragElement offset = (position, cache') →
  calcPositionLocal opts pg cache' dropElement dragElement offset = (position, cache').
Proof.
  unfold calcPositionLocal.
  destruct (getRectCached opts pg cache dropElement) as [r c] eqn:Hr.
  intros [= <- <-]. by rewrite (getRectCached_again _ _ _ _ _ Hr).
Qed.

(** The first [distinctUntilChanged]: an offset equal to the last one let
    through stops the event before the drop element is looked at and before
    any position is computed; the store, and with it the rectangle cache, is
    as it was. *)
Lemma onDragOver_same_offset pg e timeStamp offsetX offsetY target st i previous :
  prevOffset i = Some previous →
  Num.seq previous (axisOffset opts offsetX offsetY) = true →
  ∃ i', onDragOver opts pg e timeStamp offsetX offsetY target st i = (st, i', [])
        ∧ prevOffset i' = prevOffset i ∧ prevResult i' = prevResult i.
Proof.
  intros Hprev Heq. unfold onDragOver.
  destruct (dragEndPending i); [|by exists i].
  destruct (throttleStage opts timeStamp i) as [i1|] eqn:Hthr; [|by exists i].
  assert (Hi1 : prevOffset i1 = prevOffset i ∧ prevResult i1 = prevResult i).
  { revert Hthr. unfold throttleStage. destruct (Options.dragOverThrottle opts).
    - by intros [= <-].
    - destruct (throttleTime _ _ _); [|done]. by intros [= <-]. }
  exists i1. split; [|done]. unfold dragOverStages, sameOffset.
  destruct Hi1 as [-> _]. by rewrite Hprev, Heq.
Qed.

(** The second [distinctUntilChanged]: a computed position and drop element
    equal to the last pair let through stop the event. *)
Lemma dragOverStages_same_result pg e offset target st i current dropElement position cache :
  sameOffset i offset = false →
  closest pg target (Options.dropElementSelector opts) = Some dropElement →
  currentPayload st = Some current →
  calcPositionLocal opts pg (rectCache st) dropElement (dragElements current !! 0) offset
  = (position, cache) →
  prevResult i = Some (position, dropElement) →
  dragOverStages opts pg e offset target st i
  = (setRectCache cache st, setPrevOffset offset i, []).
Proof.
  intros Hoff Hfound Hcur Hpos Hprev. unfold dragOverStages.
  rewrite Hoff, Hfound, Hcur, Hpos. unfold sameResult. simpl. rewrite Hprev.
  by rewrite !bool_decide_refl.
Qed.

(** An event a subscription has taken through its stages, then the same
    offset over the same target again: the second emits nothing. *)
Lemma dragOverStages_again pg e e' offset target st i st1 i1 out i' :
  dragOverStages opts pg e offset target st i = (st1, i1, out) →
  prevOffset i' = prevOffset i1 →
  prevResult i' = prevResult i1 →
  (dragOverStages opts pg e' offset target st1 i').2 = [].
Proof.
  unfold dragOverStages at 1.
  destruct (sameOffset i offset) eqn:Hoff.
  { intros [= <- <- <-] Ho _. unfold dragOverStages, sameOffset. rewrite Ho.
    unfold sameOffset in Hoff. by rewrite Hoff. }
  destruct (closest pg target _) as [d|] eqn:Hfound.
  2:{ intros [= <- <- <-] _ _. unfold dragOverStages. rewrite Hfound.
      by destruct (sameOffset i' offset). }
  destruct (currentPayload st) as [current|] eqn:Hcur.
  2:{ intros [= <- <- <-] _ _. unfold dragOverStages. rewrite Hfound, Hcur.
      by destruct (sameOffset i' offset). }
  destruct (calcPositionLocal _ _ _ _ _ _) as [position cache] eqn:Hpos.
  apply calcPositionLocal_again in Hpos.
  assert (Hagain : ∀ st' q,
            currentPayload st' = Some q → dragElements q = dragElements current →
            rectCache st' = cache →
            prevResult i' = Some (position, d) →
            (dragOverStages opts pg e' offset target st' i').2 = []).
  { intros st' q Hq Hqd Hc Hr. unfold dragOverStages.
    destruct (sameOffset i' offset); [done|].
    rewrite Hfound, Hq, Hc, Hqd, Hpos. unfold sameResult. simpl. rewrite Hr.
    by rewrite !bool_decide_refl. }
  destruct (sameResult _ position d) eqn:Hres.
  { intros [= <- <- <-] _ Hr. simpl in Hr. unfold sameResult in Hres. simpl in Hres.
    destruct (prevResult i) as [[p0 d0]|] eqn:Hprev; [|done].
    apply andb_true_iff in Hres as [->%bool_decide_eq_true ->%bool_decide_eq_true].
    by apply (Hagain _ current). }
  destruct (_ && _); intros [= <- <- <-] _ Hr; simpl in Hr.
  - by eapply Hagain.
  - by apply (Hagain _ current).
Qed.

End dedup.

Section dedup_scenario.

Variable opts : Options.t.

Lemma throttleStage_keeps timeStamp i i1 :
  throttleStage opts timeStamp i = Some i1 →
  dragStartPending i1 = dragStartPending i ∧ dragEndPending i1 = dragEndPending i
  ∧ prevOffset i1 = prevOffset i ∧ prevResult i1 = prevResult i.
Proof.
  unfold throttleStage. destruct (Options.dragOverThrottle opts).
  - by intros [= <-].
  - destruct (throttleTime _ _ _); [|done]. by intros [= <-].
Qed.

Lemma throttleStage_first timeStamp i :
  throttledUntil i = None → ∃ i1, throttleStage opts timeStamp i = Some i1.
Proof.
  intros Hu. unfold throttleStage. destruct (Options.dragOverThrottle opts); [by eexists|].
  rewrite Hu. simpl. by eexists.
Qed.

Lemma dragOverStages_keeps pg e offset target st i :
  dragEndPending (dragOverStages opts pg e offset target st i).1.2 = dragEndPending i.
Proof.
  unfold dragOverStages. destruct (sameOffset i offset); [done|].
  destruct (closest pg target _); [|done].
  destruct (currentPayload st); [|done].
  destruct (calcPositionLocal _ _ _ _ _ _) as [position cache].
  destruct (sameResult _ _ _); [done|]. by destruct (_ && _).
Qed.

(** An event that passed the throttle of a subscription, then the same
    offsets over the same target again, on the same page: the subscription
    emits nothing for the second, whether the throttle, the first or the
    second [distinctUntilChanged] stops it. *)
Lemma onDragOver_again pg e e' timeStamp timeStamp' offsetX offsetY target st i i1 st1 i2 out :
  throttleStage opts timeStamp i = Some i1 →
  dragOverStages opts pg e (axisOffset opts offsetX offsetY) target st i1 = (st1, i2, out) →
  (onDragOver opts pg e' timeStamp' offsetX offsetY target st1 i2).2 = [].
Proof.
  intros Hthr Hst. unfold onDragOver.
  destruct (dragEndPending i2); [|done].
  destruct (throttleStage opts timeStamp' i2) as [i3|] eqn:Hthr'; [|done].
  apply throttleStage_keeps in Hthr' as (_ & _ & Ho & Hr).
  by eapply dragOverStages_again.
Qed.

(** The first [dragover] of a drag just started, over a target whose position
    is not [none] and which the container contains, is emitted. *)
Lemma dragOverStages_first pg e offset target st i current dropElement position :
  prevOffset i = None → prevResult i = None →
  closest pg target (Options.dropElementSelector opts) = Some dropElement →
  currentPayload st = Some current →
  (calcPositionLocal opts pg (rectCache st) dropElement (dragElements current !! 0) offset).1
  = position →
  position ≠ PosNone →
  contains pg (Options.container opts) dropElement = true →
  ∃ st1 i1,
    dragOverStages opts pg e offset target st i
    = (st1, i1,
       [createPayload opts DragOver e (dragElements current)
          (getClosestScrollContainer pg dropElement) (Some dropElement) (Some position)]).
Proof.
  intros Ho Hr Hfound Hcur Hpos Hnone Hin. unfold dragOverStages, sameOffset.
  rewrite Ho, Hfound, Hcur.
  destruct (calcPositionLocal _ _ _ _ _ _) as [position' cache]. simpl in Hpos. subst position'.
  unfold sameResult. simpl. rewrite Hr, Hin, bool_decide_eq_true_2 by done.
  simpl. by eexists _, _.
Qed.

Lemma runFrom_cons s pe events :
  runFrom opts s (pe :: events)
  = ((runFrom opts (step opts s pe).1 events).1,
     (step opts s pe).2 ++ (runFrom opts (step opts s pe).1 events).2).
Proof.
  cbn [runFrom]. destruct (step opts s pe) as [s1 out1]. cbn [fst snd].
  by destruct (runFrom opts s1 events) as [s2 out2].
Qed.

Lemma runFrom_step s pe events s1 out1 :
  step opts s pe = (s1, out1) →
  runFrom opts s (pe :: events)
  = ((runFrom opts s1 events).1, out1 ++ (runFrom opts s1 events).2).
Proof. intros H. by rewrite runFrom_cons, H. Qed.

Lemma withInners_single s f i :
  inners s = [i] →
  withInners s f
  = ({| store := (f (store s) i).1.1; inners := [(f (store s) i).1.2];
        mouseupListeners := mouseupListeners s |}, (f (store s) i).2).
Proof.
  intros Hi. unfold withInners. rewrite Hi. simpl.
  destruct (f (store s) i) as [[st1 i1] out1]. simpl. by rewrite app_nil_r.
Qed.

Lemma step_mousedown_survives s pg target h dragElement :
  isHTMLElement pg target = true →
  match Options.onBeforeDragStart opts with
  | Some onBeforeDragStart => onBeforeDragStart pg target
  | None => true
  end = true →
  closest pg target (Options.handleSelector opts) = Some h →
  closest pg target (Options.dragElementSelector opts) = Some dragElement →
  let payload :=
    createPayload opts BeforeDragStart (mousedown target) [dragElement]
      (getClosestScrollContainer pg dragElement) None None in
  step opts s (pg, mousedown target)
  = ({| store := emit payload
                   (setDraggable ({[dragElement]} ∪ draggable (store s)) (store s));
        inners := inners s ++ [newInner];
        mouseupListeners := S (mouseupListeners s) |}, [payload]).
Proof.
  intros Hhtml Hveto Hhandle Hdrag. simpl. unfold onMouseDown.
  by rewrite Hhtml, Hveto, Hhandle, Hdrag.
Qed.

End dedup_scenario.

(** The two deduplication stages of one subscription, and a drag on a fresh
    engine: in the [dragOver$] of a subscription, an event whose axis offset
    is equal to the last offset let through is skipped before any position is
    computed (the store and its rectangle cache are untouched); an event
    whose computed position and drop element are those of the last pair let
    through is skipped; and a drag of element A started on a fresh engine,
    moved over target B at an offset giving [before] and then again at the
    same offset, emits one [DragOver] payload, for B. *)
Theorem dragOver_deduplicated (opts : Options.t) :
  (∀ pg e timeStamp offsetX offsetY target st i previous,
     prevOffset i = Some previous →
     Num.seq previous (axisOffset opts offsetX offsetY) = true →
     ∃ i', onDragOver opts pg e timeStamp offsetX offsetY target st i = (st, i', [])
           ∧ prevOffset i' = prevOffset i ∧ prevResult i' = prevResult i)
  ∧ (∀ pg e offset target st i current dropElement position cache,
       sameOffset i offset = false →
       closest pg target (Options.dropElementSelector opts) = Some dropElement →
       currentPayload st = Some current →
       calcPositionLocal opts pg (rectCache st) dropElement (dragElements current !! 0) offset
       = (position, cache) →
       prevResult i = Some (position, dropElement) →
       (dragOverStages opts pg e offset target st i).2 = [])
  ∧ (∀ pg ta ts tb h A B t1 t2 offsetX offsetY,
       isHTMLElement pg ta = true →
       match Options.onBeforeDragStart opts with
       | Some onBeforeDragStart => onBeforeDragStart pg ta
       | None => true
       end = true →
       closest pg ta (Options.handleSelector opts) = Some h →
       closest pg ta (Options.dragElementSelector opts) = Some A →
       closest pg ts (Options.dragElementSelector opts) = Some A →
       closest pg tb (Options.dropElementSelector opts) = Some B →
       (calcPositionLocal opts pg ∅ B (getCombinedSelectedElements opts pg A !! 0)
          (axisOffset opts offsetX offsetY)).1 = PosBefore →
       contains pg (Options.container opts) B = true →
       (run opts [(pg, mousedown ta); (pg, dragstart ts);
                  (pg, dragover t1 offsetX offsetY tb);
                  (pg, dragover t2 offsetX offsetY tb)]).2
       = [createPayload opts BeforeDragStart (mousedown ta) [A]
            (getClosestScrollContainer pg A) None None;
          createPayload opts DragStart (dragstart ts)
            (getCombinedSelectedElements opts pg A)
            (getClosestScrollContainer pg A) None None;
          createPayload opts DragOver (dragover t1 offsetX offsetY tb)
            (getCombinedSelectedElements opts pg A)
            (getClosestScrollContainer pg B) (Some B) (Some PosBefore)]).
Proof.
  split; [|split].
  - intros. by eapply onDragOver_same_offset.
  - intros pg e offset target st i current d pos cache Hoff Hfound Hcur Hpos Hprev.
    by rewrite (dragOverStages_same_result opts pg e offset target st i current
                  d pos cache).
  - intros pg ta ts tb h A B t1 t2 offsetX offsetY
      Hhtml Hveto Hhandle Hdrag Hstart Hdrop Hpos Hin.
    set (bds := createPayload opts BeforeDragStart (mousedown ta) [A]
                  (getClosestScrollContainer pg A) None None).
    set (ds := createPayload opts DragStart (dragstart ts)
                 (getCombinedSelectedElements opts pg A)
                 (getClosestScrollContainer pg A) None None).
    set (st1 := emit bds (setDraggable ({[A]} ∪ draggable (store initial)) (store initial))).
    set (s1 := {| store := st1; inners := [newInner]; mouseupListeners := 1 |}).
    set (st2 := emit ds (flushRectCache st1)).
    set (i2 := {| dragStartPending := false; dragEndPending := true;
                  throttledUntil := None; prevOffset := None; prevResult := None |}).
    set (s2 := {| store := st2; inners := [i2]; mouseupListeners := 1 |}).
    assert (E1 : step opts initial (pg, mousedown ta) = (s1, [bds])).
    { by apply (step_mousedown_survives opts initial pg ta h A). }
    assert (E2 : step opts s1 (pg, dragstart ts) = (s2, [ds])).
    { cbn [step]. rewrite (withInners_single _ _ newInner) by reflexivity.
      unfold onDragStart. cbn [newInner dragStartPending s1 store]. by rewrite Hstart. }
    destruct (throttleStage_first opts t1 i2 eq_refl) as [i3 Hthr].
    pose proof (throttleStage_keeps opts t1 i2 i3 Hthr) as (_ & _ & Ho & Hr).
    destruct (dragOverStages_first opts pg (dragover t1 offsetX offsetY tb)
                (axisOffset opts offsetX offsetY) tb st2 i3 ds B PosBefore)
      as (st3 & i4 & Hfirst); [done|done|done|done|exact Hpos|done|done|].
    pose proof (onDragOver_again opts pg (dragover t1 offsetX offsetY tb)
                  (dragover t2 offsetX offsetY tb) t1 t2 offsetX offsetY tb
                  st2 i2 i3 st3 i4 _ Hthr Hfirst) as Hagain.
    set (s3 := {| store := st3; inners := [i4]; mouseupListeners := 1 |}).
    assert (E3 : step opts s2 (pg, dragover t1 offsetX offsetY tb)
                 = (s3, [createPayload opts DragOver (dragover t1 offsetX offsetY tb)
                           (dragElements ds) (getClosestScrollContainer pg B)
                           (Some B) (Some PosBefore)])).
    { cbn [step]. rewrite (withInners_single _ _ i2) by reflexivity.
      unfold onDragOver. cbn [i2 dragEndPending s2 store]. fold i2.
      by rewrite Hthr, Hfirst. }
    assert (E4 : (step opts s3 (pg, dragover t2 offsetX offsetY tb)).2 = []).
    { cbn [step]. by rewrite (withInners_single _ _ i4) by reflexivity. }
    unfold run.
    rewrite (runFrom_step opts _ _ _ _ _ E1), (runFrom_step opts _ _ _ _ _ E2),
      (runFrom_step opts _ _ _ _ _ E3), runFrom_cons, E4.
    reflexivity.
Qed.

(** Item 1 is dragged over item 2 at offset 20 of 100, which the default rule
    [around] places [before], then again at the same offset. *)
Lemma dragOver_deduplicated_witness :
  closest Demo.P 2 "[data-id]" = Some 2
  ∧ (calcPositionLocal (optionsExtended Partial.empty) Demo.P ∅ 2 (Some 1) 20).1 = PosBefore
  ∧ Demo.view <$> (run (optionsExtended Partial.empty) Demo.hoverTwice).2
    = [(BeforeDragStart, [1], None, None, Window);
       (DragStart, [1], None, None, Window);
       (DragOver, [1], Some 2, Some PosBefore, ScrollElement 7)].
Proof.
  split; [reflexivity|]. split; [reflexivity|].
  destruct (dragOver_deduplicated (optionsExtended Partial.empty)) as (_ & _ & H).
  unfold Demo.hoverTwice.
  rewrite (H Demo.P 1 1 2 1 1 2 0 100 5%float 20%float); reflexivity.
Defined.

(** C10: two consecutive [dragover] events, 100 ms apart, with equal axis
    offsets and targets that resolve to two different drop elements: the
    first is emitted, the second is not, although the same event at another
    offset would be. *)
Theorem same_offset_hides_new_drop_element :
  ∃ (opts : Options.t) (s : Engine) (pg : Page) (t1 t2 : nat)
    (offsetX offsetY offsetY' : float) (target1 target2 d1 d2 : Elem),
    (∃ events, s = (run opts events).1)
    ∧ Options.vertical opts = true
    ∧ t1 + Options.dragOverThrottle opts ≤ t2
    ∧ closest pg target1 (Options.dropElementSelector opts) = Some d1
    ∧ closest pg target2 (Options.dropElementSelector opts) = Some d2
    ∧ d1 ≠ d2
    ∧ Demo.view <$> (step opts s (pg, dragover t1 offsetX offsetY target1)).2
      = [(DragOver, [1], Some d1, Some PosBefore, ScrollElement 7)]
    ∧ (step opts (step opts s (pg, dragover t1 offsetX offsetY target1)).1
         (pg, dragover t2 offsetX offsetY target2)).2 = []
    ∧ Demo.view <$> (step opts (step opts s (pg, dragover t1 offsetX offsetY target1)).1
                       (pg, dragover t2 offsetX offsetY' target2)).2
      = [(DragOver, [1], Some d2, Some PosBefore, Window)].
Proof.
  exists (optionsExtended Partial.empty),
    (run (optionsExtended Partial.empty) Demo.grabOne).1, Demo.P, 0, 100,
    5%float, 20%float, 21%float, 2, 3, 2, 3.
  split; [by exists Demo.grabOne|].
  split; [reflexivity|]. split; [vm_compute; lia|].
  split; [reflexivity|]. split; [reflexivity|]. split; [done|].
  split; [reflexivity|]. split; reflexivity.
Qed.

(** ** The lifecycle *)

(** One drag on a fresh engine: one payload of each of the three types. *)
Lemma single_drag_lifecycle :
  type <$> createDragDropObservable Partial.empty Demo.dragOneAndRelease
  = [BeforeDragStart; DragStart; DragEnd].
Proof. reflexivity. Qed.

Section lifecycle.

Variable opts : Options.t.

Lemma runFrom_app s events events' :
  runFrom opts s (events ++ events')
  = ((runFrom opts (runFrom opts s events).1 events').1,
     (runFrom opts s events).2 ++ (runFrom opts (runFrom opts s events).1 events').2).
Proof.
  revert s. induction events as [|pe events IH]; intros s.
  - cbn [app runFrom fst snd]. by destruct (runFrom opts s events').
  - rewrite <- app_comm_cons, !runFrom_cons, IH. cbn [fst snd]. by rewrite app_assoc.
Qed.

(** While one subscription is dragging, [dragover] events leave it dragging
    and give rise to [DragOver] payloads only. *)
Lemma runFrom_dragovers s overs i :
  Forall isDragOver overs →
  inners s = [i] → dragEndPending i = true →
  is_Some (currentPayload (store s)) →
  ∃ i', inners (runFrom opts s overs).1 = [i'] ∧ dragEndPending i' = true
        ∧ is_Some (currentPayload (store (runFrom opts s overs).1))
        ∧ Forall (λ p, type p = DragOver) (runFrom opts s overs).2.
Proof.
  intros Hovers. revert s i. induction Hovers as [|[pg e] overs He _ IH]; intros s i Hi Hp Hcur.
  - exists i. repeat split; [done|done|done|constructor].
  - destruct e as [| | |timeStamp offsetX offsetY target|]; try done.
    rewrite runFrom_cons.
    set (ev := (pg, dragover timeStamp offsetX offsetY target)).
    assert (Hty : Forall (λ p, type p = DragOver) (step opts s ev).2).
    { apply Forall_forall. intros p Hin. by apply (step_emitted_type opts s pg _ p Hin). }
    destruct (step_tracks opts s ev) as [_ Hlast].
    assert (Hcur' : is_Some (currentPayload (store (step opts s ev).1))).
    { rewrite Hlast. unfold lastPayload. by destruct (last _). }
    assert (Hin' : ∃ i1, inners (step opts s ev).1 = [i1] ∧ dragEndPending i1 = true).
    { unfold ev. cbn [step]. rewrite (withInners_single _ _ i) by done. cbn [fst inners].
      eexists. split; [done|]. unfold onDragOver. rewrite Hp.
      destruct (throttleStage opts timeStamp i) as [i1|] eqn:Hthr; [|done].
      rewrite dragOverStages_keeps. by apply throttleStage_keeps in Hthr as (_ & -> & _). }
    destruct Hin' as (i1 & Hi1 & Hp1).
    destruct (IH _ i1 Hi1 Hp1 Hcur') as (i' & Hi' & Hp' & Hc' & Hty').
    exists i'. cbn [fst snd]. repeat split; [done|done|done|]. by apply Forall_app.
Qed.

(** One drag on a fresh engine, whatever the pages its events are dispatched
    on: a [mousedown] and a [dragstart] that pass the filters, any number of
    [dragover] events and a [dragend] give one [BeforeDragStart], one
    [DragStart], some [DragOver] payloads and one [DragEnd]. *)
Lemma single_drag_lifecycle_general pg0 ta h A pg1 ts A' overs pgN :
  isHTMLElement pg0 ta = true →
  match Options.onBeforeDragStart opts with
  | Some onBeforeDragStart => onBeforeDragStart pg0 ta
  | None => true
  end = true →
  closest pg0 ta (Options.handleSelector opts) = Some h →
  closest pg0 ta (Options.dragElementSelector opts) = Some A →
  closest pg1 ts (Options.dragElementSelector opts) = Some A' →
  Forall isDragOver overs →
  ∃ k,
    type <$> (run opts ((pg0, mousedown ta) :: (pg1, dragstart ts)
                          :: overs ++ [(pgN, dragend)])).2
    = BeforeDragStart :: DragStart :: replicate k DragOver ++ [DragEnd].
Proof.
  intros Hhtml Hveto Hhandle Hdrag Hstart Hovers.
  set (bds := createPayload opts BeforeDragStart (mousedown ta) [A]
                (getClosestScrollContainer pg0 A) None None).
  set (ds := createPayload opts DragStart (dragstart ts)
               (getCombinedSelectedElements opts pg1 A')
               (getClosestScrollContainer pg1 A') None None).
  set (st1 := emit bds (setDraggable ({[A]} ∪ draggable (store initial)) (store initial))).
  set (s1 := {| store := st1; inners := [newInner]; mouseupListeners := 1 |}).
  set (i2 := {| dragStartPending := false; dragEndPending := true;
                throttledUntil := None; prevOffset := None; prevResult := None |}).
  set (s2 := {| store := emit ds (flushRectCache st1); inners := [i2];
                mouseupListeners := 1 |}).
  assert (E1 : step opts initial (pg0, mousedown ta) = (s1, [bds])).
  { by apply (step_mousedown_survives opts initial pg0 ta h A). }
  assert (E2 : step opts s1 (pg1, dragstart ts) = (s2, [ds])).
  { cbn [step]. rewrite (withInners_single _ _ newInner) by reflexivity.
    unfold onDragStart. cbn [newInner dragStartPending s1 store]. by rewrite Hstart. }
  destruct (runFrom_dragovers s2 overs i2 Hovers eq_refl eq_refl) as (i3 & Hi3 & Hp3 & Hc3 & Hty);
    [by eexists|].
  set (s3 := (runFrom opts s2 overs).1) in *.
  destruct Hc3 as [current Hc3].
  assert (E3 : ∃ p, (step opts s3 (pgN, dragend)).2 = [p] ∧ type p = DragEnd).
  { cbn [step]. rewrite (withInners_single _ _ i3) by done. cbn [snd].
    unfold onDragEnd. rewrite Hp3, Hc3. by eexists. }
  destruct E3 as (de & E3 & Hde).
  exists (length (runFrom opts s2 overs).2). unfold run.
  rewrite (runFrom_step opts _ _ _ _ _ E1), (runFrom_step opts _ _ _ _ _ E2).
  cbn [snd app]. rewrite runFrom_app. cbn [snd]. fold s3.
  rewrite runFrom_cons. cbn [runFrom snd]. rewrite E3, app_nil_r.
  rewrite !fmap_cons, fmap_app. cbn [fmap list_fmap]. rewrite Hde. do 2 f_equal.
  f_equal. clear -Hty. induction Hty as [|p l Hp _ IH]; [done|].
  cbn. by rewrite Hp, IH.
Qed.

End lifecycle.

(** C2, on the code: [mouseup] ends no subscription.  After a click on item 1
    (pointer down, pointer up, no drag), one drag of item 1 gives two
    [DragStart] and two [DragEnd] payloads, one pair from the subscription of
    the click; and after a click alone, a [dragend] with no [dragstart]
    gives a [DragEnd] payload. *)
Theorem click_then_drag_emits_twice :
  type <$> createDragDropObservable Partial.empty Demo.clickThenDrag
  = [BeforeDragStart; BeforeDragStart; DragStart; DragStart; DragEnd; DragEnd]
  ∧ type <$> createDragDropObservable Partial.empty Demo.clickThenForeignDragEnd
    = [BeforeDragStart; DragEnd].
Proof. split; reflexivity. Qed.

Section dragEnd.

Variable opts : Options.t.

(** What [dragEnd$] builds its payload from. *)
Lemma onDragEnd_payload pg e st i p :
  p ∈ (onDragEnd opts pg e st i).2 →
  ∃ current,
    currentPayload st = Some current
    ∧ type p = DragEnd
    ∧ dragElements p = dragElements current
    ∧ dropElement p = dropElement current
    ∧ position p = position current
    ∧ scrollContainer p = ScrollElement (container current).
Proof.
  unfold onDragEnd. destruct (dragEndPending i); [|by intros ?%elem_of_nil].
  destruct (currentPayload st) as [current|]; [|by intros ?%elem_of_nil].
  simpl. intros ->%list_elem_of_singleton. by exists current.
Qed.

(** A drop element equal to the first dragged element has the rule [none]. *)
Lemma localRule_first_dragged pg dropElement :
  localRule opts pg dropElement (Some dropElement) = RuleNone.
Proof. unfold localRule. by rewrite bool_decide_eq_false_2 by (intros H; by apply H). Qed.

End dragEnd.

(** C5, on the code: the [DragEnd] payload of a drag of item 1 over item 2
    carries the dragged elements, the drop element and the position of the
    [DragOver] payload before it, but as its scroll container the container
    ([document.body]), where the payload before it has the scrollable box of
    item 2; with no [dragover], drop element and position are absent. *)
Theorem dragEnd_scrollContainer_is_container :
  Demo.view <$> createDragDropObservable Partial.empty Demo.dragOneOverTwo
  = [(BeforeDragStart, [1], None, None, Window);
     (DragStart, [1], None, None, Window);
     (DragOver, [1], Some 2, Some PosBefore, ScrollElement 7);
     (DragEnd, [1], Some 2, Some PosBefore, ScrollElement document_body)]
  ∧ Demo.view <$> createDragDropObservable Partial.empty Demo.dragOneAndRelease
    = [(BeforeDragStart, [1], None, None, Window);
       (DragStart, [1], None, None, Window);
       (DragEnd, [1], None, None, ScrollElement document_body)].
Proof. split; reflexivity. Qed.

(** C7, on the code: with items 1 and 2 selected, item 2 is dragged and moved
    over itself: the rule is asked for the first selected element, item 1,
    and a [DragOver] payload with item 2 as drop element is emitted; moved
    over item 1, nothing is emitted. *)
Theorem selection_dragged_over_primary :
  Demo.view <$> createDragDropObservable Demo.selecting Demo.dragSelectionOverPrimary
  = [(BeforeDragStart, [2], None, None, ScrollElement 7);
     (DragStart, [1; 2], None, None, ScrollElement 7);
     (DragOver, [1; 2], Some 2, Some PosBefore, ScrollElement 7)].
Proof. reflexivity. Qed.

(** * Further properties of the engine *)

(** ** The shape of the emitted payloads *)

Section shapes.

Variable opts : Options.t.

Lemma linked_app R prev a b :
  linked R prev (a ++ b) ↔ linked R prev a ∧ linked R (lastPayload prev a) b.
Proof.
  revert prev. induction a as [|p a IH]; intros prev; simpl.
  - unfold lastPayload. simpl. tauto.
  - rewrite IH, lastPayload_cons. tauto.
Qed.

Lemma linked_Forall R (Q : DragDropPayload → Prop) prev out :
  (∀ prev p, R prev p → Q p) → linked R prev out → Forall Q out.
Proof.
  intros HRQ. revert prev. induction out as [|p out IH]; intros prev; [constructor|].
  intros [Hp Hout]. constructor; eauto.
Qed.

Lemma getCombinedSelectedElements_elem pg dragElement :
  dragElement ∈ getCombinedSelectedElements opts pg dragElement.
Proof.
  rewrite getCombinedSelectedElements_cases.
  destruct (Options.getSelectedElements opts) as [f|]; [|by left].
  case_bool_decide; [done|]. apply elem_of_app. right. by left.
Qed.

Lemma getCombinedSelectedElements_nonempty pg dragElement :
  getCombinedSelectedElements opts pg dragElement ≠ [].
Proof.
  intros H. pose proof (getCombinedSelectedElements_elem pg dragElement) as Hin.
  rewrite H in Hin. by apply elem_of_nil in Hin.
Qed.

Lemma localRule_not_none pg dropElement dragElement :
  localRule opts pg dropElement dragElement ≠ RuleNone → dragElement ≠ Some dropElement.
Proof. unfold localRule. by case_bool_decide. Qed.

Lemma onDragStart_links pg e target : links opts (onDragStart opts pg e target).
Proof.
  intros st i. unfold onDragStart.
  destruct (dragStartPending i); [|done].
  destruct (closest pg target _); [|done].
  simpl. split; [|done]. repeat split; try done.
  apply getCombinedSelectedElements_nonempty.
Qed.

Lemma dragOverStages_links pg e offset target :
  links opts (dragOverStages opts pg e offset target).
Proof.
  intros st i. unfold dragOverStages.
  destruct (sameOffset i offset); [done|].
  destruct (closest pg target _) as [d|]; [|done].
  destruct (currentPayload st) as [current|] eqn:Hcur; [|done].
  destruct (calcPositionLocal _ _ _ _ _ _) as [pos cache] eqn:Hpos.
  destruct (sameResult _ _ _); [done|].
  destruct (bool_decide (pos ≠ PosNone)) eqn:Hnone; [|done].
  destruct (contains pg _ d); [|done].
  apply bool_decide_eq_true in Hnone.
  simpl. split; [|done]. repeat split; try done.
  exists current, d, pos. repeat split; try done.
  apply (localRule_not_none pg). intros Hrule. apply Hnone.
  apply (calcPositionLocal_none opts pg (rectCache st) d _ offset) in Hrule.
  by rewrite Hpos in Hrule.
Qed.

Lemma onDragOver_links pg e timeStamp offsetX offsetY target :
  links opts (onDragOver opts pg e timeStamp offsetX offsetY target).
Proof.
  intros st i. unfold onDragOver.
  destruct (dragEndPending i); [|done].
  destruct (throttleStage opts timeStamp i); [|done].
  apply dragOverStages_links.
Qed.

Lemma onDragEnd_links pg e : links opts (onDragEnd opts pg e).
Proof.
  intros st i. unfold onDragEnd.
  destruct (dragEndPending i); [|done].
  destruct (currentPayload st) as [current|] eqn:Hcur; [|done].
  simpl. split; [|done]. repeat split; try done. by exists current.
Qed.

Lemma forInners_links f st l :
  tracks f → links opts f →
  linked (emittedFrom opts) (currentPayload st) (forInners f st l).2.
Proof.
  intros Ht Hf. revert st. induction l as [|i l IH]; intros st; simpl; [done|].
  destruct (Ht st i) as [_ Hl]. pose proof (Hf st i) as Hk.
  destruct (f st i) as [[st1 i1] out1].
  pose proof (IH st1) as Hk'. destruct (forInners f st1 l) as [[st2 l2] out2].
  simpl in *. rewrite linked_app, <- Hl. done.
Qed.

Lemma withInners_links s f :
  tracks f → links opts f →
  linked (emittedFrom opts) (currentPayload (store s)) (withInners s f).2.
Proof.
  intros Ht Hf. unfold withInners.
  pose proof (forInners_links f (store s) (inners s) Ht Hf) as H.
  by destruct (forInners f (store s) (inners s)) as [[st l] out].
Qed.

Lemma step_links s pe :
  linked (emittedFrom opts) (currentPayload (store s)) (step opts s pe).2.
Proof.
  destruct pe as [pg [target| |target|timeStamp offsetX offsetY target|]]; simpl.
  - unfold onMouseDown. destruct (_ && _); [|done].
    destruct (closest pg target (Options.handleSelector opts)); [|done].
    destruct (closest pg target (Options.dragElementSelector opts)) as [d|]; [|done].
    simpl. split; [|done]. repeat split; try done. by exists d.
  - unfold onMouseUp. by destruct (mouseupListeners s).
  - apply withInners_links; [apply onDragStart_tracks|apply onDragStart_links].
  - apply withInners_links; [apply onDragOver_tracks|apply onDragOver_links].
  - apply withInners_links; [apply onDragEnd_tracks|apply onDragEnd_links].
Qed.

Lemma runFrom_links s events :
  linked (emittedFrom opts) (currentPayload (store s)) (runFrom opts s events).2.
Proof.
  revert s. induction events as [|pe events IH]; intros s; [done|].
  rewrite runFrom_cons. cbn [snd]. rewrite linked_app.
  destruct (step_tracks opts s pe) as [_ Hl]. rewrite <- Hl. split; [apply step_links|apply IH].
Qed.

End shapes.

(** X1: every payload of a run carries the configuration the engine was made
    with and its container; for [createDragDropObservable(options)] that is
    the one object merged from the defaults and the supplied options. *)
Theorem payloads_carry_resolved_options (supplied : Partial.t)
    (events : list (Page * NativeEvent)) :
  Forall (λ p, options p = optionsExtended supplied
               ∧ container p = Options.container (optionsExtended supplied))
    (createDragDropObservable supplied events).
Proof.
  unfold createDragDropObservable, run.
  apply (linked_Forall (emittedFrom (optionsExtended supplied)) _ None);
    [|apply (runFrom_links _ initial)].
  by intros prev p (Ho & Hc & _).
Qed.

(** X3: the drop element of a [DragOver] payload of a run is never the first
    of its dragged elements. *)
Theorem dragOver_never_on_first_dragged (opts : Options.t)
    (events : list (Page * NativeEvent)) :
  Forall (λ p, type p = DragOver → dragElements p !! 0 ≠ dropElement p)
    (run opts events).2.
Proof.
  apply (linked_Forall (emittedFrom opts) _ None); [|apply (runFrom_links _ initial)].
  intros prev p (_ & _ & Hp) Hty. rewrite Hty in Hp.
  destruct Hp as (q & d & pos & _ & -> & -> & _ & _ & Hne). done.
Qed.

(** X4: a [DragEnd] payload of a run carries the dragged elements, the drop
    element and the position of the payload emitted just before it, and the
    container as its scroll container; after a [BeforeDragStart] or a
    [DragStart] payload it has neither drop element nor position. *)
Theorem dragEnd_reuses_previous_payload (opts : Options.t)
    (events : list (Page * NativeEvent)) (pre post : list DragDropPayload)
    (q p : DragDropPayload) :
  (run opts events).2 = pre ++ q :: p :: post →
  type p = DragEnd →
  dragElements p = dragElements q
  ∧ dropElement p = dropElement q
  ∧ position p = position q
  ∧ scrollContainer p = ScrollElement (Options.container opts)
  ∧ (type q = BeforeDragStart ∨ type q = DragStart →
     dropElement p = None ∧ position p = None).
Proof.
  intros Hout Hty.
  pose proof (runFrom_links opts initial events) as Hl. fold (run opts events) in Hl.
  rewrite Hout in Hl. apply linked_app in Hl as [_ Hl].
  destruct Hl as [(_ & Hcq & Hq) [(_ & _ & Hp) _]]. rewrite Hty in Hp.
  destruct Hp as (q' & [= <-] & Hd & Hdrop & Hpos & Hscroll).
  repeat split; try done; try (by rewrite Hscroll, Hcq).
  - rewrite Hdrop. destruct H as [H|H]; rewrite H in Hq; by destruct Hq as (_ & ? & _).
  - rewrite Hpos. destruct H as [H|H]; rewrite H in Hq; by destruct Hq as (_ & _ & ?).
Qed.

(** Item 1 dragged over item 2 and released: the [DragEnd] payload repeats
    the drop element and position of the [DragOver] payload. *)
Lemma dragEnd_reuses_previous_payload_witness :
  Demo.view <$> drop 3 (run (optionsExtended Partial.empty) Demo.dragOneOverTwo).2
  = [(DragEnd, [1], Some 2, Some PosBefore, ScrollElement document_body)].
Proof.
  pose (out := (run (optionsExtended Partial.empty) Demo.dragOneOverTwo).2).
  assert (Hq : ∃ q, out !! 2 = Some q) by (vm_compute; eauto).
  assert (Hp : ∃ p, out !! 3 = Some p) by (vm_compute; eauto).
  destruct Hq as [q Hq]. destruct Hp as [p Hp].
  assert (Hsplit : out = take 2 out ++ q :: p :: []).
  { rewrite <- (take_drop 2 out) at 1. f_equal.
    rewrite (drop_S out q 2 Hq), (drop_S out p 3 Hp). done. }
  assert (Hty : type p = DragEnd) by (revert Hp; vm_compute; by intros [= <-]).
  destruct (dragEnd_reuses_previous_payload (optionsExtended Partial.empty)
              Demo.dragOneOverTwo (take 2 out) [] q p Hsplit Hty)
    as (Hd & Hdrop & Hpos & Hscroll & _).
  change (drop 3 (run (optionsExtended Partial.empty) Demo.dragOneOverTwo).2)
    with (drop 3 out).
  rewrite (drop_S out p 3 Hp). cbn [fmap list_fmap]. unfold Demo.view.
  rewrite Hty, Hd, Hdrop, Hpos, Hscroll.
  revert Hq. vm_compute. by intros [= <-].
Defined.

(** ** The order and number of the payloads *)

Section counting.

Variable opts : Options.t.

Lemma engine_eta s :
  {| store := store s; inners := inners s; mouseupListeners := mouseupListeners s |} = s.
Proof. by destruct s. Qed.

Lemma withInners_no_inners s f :
  inners s = [] → withInners s f = (s, []).
Proof. intros H. unfold withInners. rewrite H. simpl. by rewrite <- H, engine_eta. Qed.

Lemma runFrom_no_inners s events :
  inners s = [] →
  match (runFrom opts s events).2 with
  | [] => True
  | p :: _ => type p = BeforeDragStart
  end.
Proof.
  revert s. induction events as [|[pg e] events IH]; intros s Hs; [done|].
  rewrite runFrom_cons. cbn [snd].
  destruct (step opts s (pg, e)).2 as [|p out] eqn:Hout.
  - apply IH. revert Hout.
    destruct e as [target| |target|timeStamp offsetX offsetY target|]; cbn [step].
    + unfold onMouseDown. destruct (_ && _); [|done].
      destruct (closest pg target (Options.handleSelector opts)); [|done].
      by destruct (closest pg target (Options.dragElementSelector opts)).
    + unfold onMouseUp. by destruct (mouseupListeners s).
    + by rewrite withInners_no_inners.
    + by rewrite withInners_no_inners.
    + by rewrite withInners_no_inners.
  - simpl. destruct e as [target| |target|timeStamp offsetX offsetY target|].
    + apply (step_emitted_type opts s pg (mousedown target)). rewrite Hout. left.
    + exfalso. apply (step_emitted_type opts s pg mouseup p). rewrite Hout. left.
    + revert Hout. cbn [step]. by rewrite withInners_no_inners.
    + revert Hout. cbn [step]. by rewrite withInners_no_inners.
    + revert Hout. cbn [step]. by rewrite withInners_no_inners.
Qed.

Lemma countType_app t a b : countType t (a ++ b) = countType t a + countType t b.
Proof. unfold countType. by rewrite filter_app, length_app. Qed.

Lemma countType_Forall t t' out :
  t ≠ t' → Forall (λ p, type p = t') out → countType t out = 0.
Proof.
  intros Hne H. unfold countType. induction H as [|p out Hp _ IH]; [done|].
  rewrite filter_cons. destruct (decide (type p = t)); [congruence|done].
Qed.

Lemma pendingStarts_cons i l :
  pendingStarts (i :: l) = Nat.b2n (dragStartPending i) + pendingStarts l.
Proof.
  unfold pendingStarts. rewrite filter_cons.
  destruct (decide (dragStartPending i = true)) as [->|H]; [done|].
  by destruct (dragStartPending i).
Qed.

Lemma pendingEnds_cons i l :
  pendingEnds (i :: l) = Nat.b2n (dragEndPending i) + pendingEnds l.
Proof.
  unfold pendingEnds. rewrite filter_cons.
  destruct (decide (dragEndPending i = true)) as [->|H]; [done|].
  by destruct (dragEndPending i).
Qed.

Lemma pendingStarts_snoc l : pendingStarts (l ++ [newInner]) = pendingStarts l + 1.
Proof. unfold pendingStarts. by rewrite filter_app, length_app. Qed.

Lemma pendingEnds_snoc l : pendingEnds (l ++ [newInner]) = pendingEnds l + 1.
Proof. unfold pendingEnds. by rewrite filter_app, length_app. Qed.

Lemma dragOverStages_flags pg e offset target st i :
  dragStartPending (dragOverStages opts pg e offset target st i).1.2 = dragStartPending i
  ∧ throttledUntil (dragOverStages opts pg e offset target st i).1.2 = throttledUntil i.
Proof.
  unfold dragOverStages. destruct (sameOffset i offset); [done|].
  destruct (closest pg target _); [|done].
  destruct (currentPayload st); [|done].
  destruct (calcPositionLocal _ _ _ _ _ _) as [position cache].
  destruct (sameResult _ _ _); [done|]. by destruct (_ && _).
Qed.

Lemma onDragOver_flags pg e timeStamp offsetX offsetY target st i :
  dragStartPending (onDragOver opts pg e timeStamp offsetX offsetY target st i).1.2
  = dragStartPending i
  ∧ dragEndPending (onDragOver opts pg e timeStamp offsetX offsetY target st i).1.2
    = dragEndPending i.
Proof.
  unfold onDragOver. destruct (dragEndPending i) eqn:Hp; [|done].
  destruct (throttleStage opts timeStamp i) as [i1|] eqn:Hthr; [|done].
  apply throttleStage_keeps in Hthr as (Hs & He & _).
  destruct (dragOverStages_flags pg e (axisOffset opts offsetX offsetY) target st i1) as [-> _].
  rewrite dragOverStages_keeps. by rewrite Hs, He.
Qed.

Lemma onDragOver_types pg e timeStamp offsetX offsetY target st i :
  Forall (λ p, type p = DragOver)
    (onDragOver opts pg e timeStamp offsetX offsetY target st i).2.
Proof.
  unfold onDragOver, dragOverStages. destruct (dragEndPending i); [|constructor].
  destruct (throttleStage opts timeStamp i) as [i1|]; [|constructor].
  destruct (sameOffset i1 _); [constructor|].
  destruct (closest pg target _); [|constructor].
  destruct (currentPayload st); [|constructor].
  destruct (calcPositionLocal _ _ _ _ _ _) as [position cache].
  destruct (sameResult _ _ _); [constructor|].
  destruct (_ && _); repeat constructor.
Qed.

(** What a handler does to the books of one subscription while a payload is
    stored: each [DragStart] it emits uses up the [take(1)] of [dragStart$],
    each [DragEnd] that of [dragEnd$]. *)
Lemma forInners_accounts f st l :
  tracks f →
  (∀ st i, is_Some (currentPayload st) →
     Nat.b2n (dragStartPending (f st i).1.2) + countType DragStart (f st i).2
     = Nat.b2n (dragStartPending i)
     ∧ Nat.b2n (dragEndPending (f st i).1.2) + countType DragEnd (f st i).2
       = Nat.b2n (dragEndPending i)
     ∧ countType BeforeDragStart (f st i).2 = 0) →
  is_Some (currentPayload st) →
  pendingStarts (forInners f st l).1.2 + countType DragStart (forInners f st l).2
  = pendingStarts l
  ∧ pendingEnds (forInners f st l).1.2 + countType DragEnd (forInners f st l).2
    = pendingEnds l
  ∧ countType BeforeDragStart (forInners f st l).2 = 0.
Proof.
  intros Ht Hf. revert st. induction l as [|i l IH]; intros st Hst; simpl; [done|].
  destruct (Hf st i Hst) as (Hs & He & Hb). destruct (Ht st i) as [_ Hl].
  destruct (f st i) as [[st1 i1] out1]. simpl in *.
  assert (Hst1 : is_Some (currentPayload st1)).
  { rewrite Hl. unfold lastPayload. by destruct (last out1). }
  destruct (IH st1 Hst1) as (Hs' & He' & Hb').
  destruct (forInners f st1 l) as [[st2 l2] out2]. simpl in *.
  rewrite !pendingStarts_cons, !pendingEnds_cons, !countType_app. lia.
Qed.

Lemma onDragStart_accounts pg e target st i :
  Nat.b2n (dragStartPending (onDragStart opts pg e target st i).1.2)
  + countType DragStart (onDragStart opts pg e target st i).2
  = Nat.b2n (dragStartPending i)
  ∧ Nat.b2n (dragEndPending (onDragStart opts pg e target st i).1.2)
    + countType DragEnd (onDragStart opts pg e target st i).2
    = Nat.b2n (dragEndPending i)
  ∧ countType BeforeDragStart (onDragStart opts pg e target st i).2 = 0.
Proof.
  unfold onDragStart. destruct (dragStartPending i) eqn:Hp;
    [|simpl; rewrite ?Hp; unfold countType; simpl; lia].
  destruct (closest pg target _); [|simpl; rewrite ?Hp; unfold countType; simpl; lia].
  simpl. unfold countType. simpl. lia.
Qed.

Lemma onDragOver_accounts pg e timeStamp offsetX offsetY target st i :
  Nat.b2n (dragStartPending (onDragOver opts pg e timeStamp offsetX offsetY target st i).1.2)
  + countType DragStart (onDragOver opts pg e timeStamp offsetX offsetY target st i).2
  = Nat.b2n (dragStartPending i)
  ∧ Nat.b2n (dragEndPending (onDragOver opts pg e timeStamp offsetX offsetY target st i).1.2)
    + countType DragEnd (onDragOver opts pg e timeStamp offsetX offsetY target st i).2
    = Nat.b2n (dragEndPending i)
  ∧ countType BeforeDragStart (onDragOver opts pg e timeStamp offsetX offsetY target st i).2
    = 0.
Proof.
  destruct (onDragOver_flags pg e timeStamp offsetX offsetY target st i) as [-> ->].
  pose proof (onDragOver_types pg e timeStamp offsetX offsetY target st i) as Hty.
  rewrite !(countType_Forall _ DragOver) by done. lia.
Qed.

Lemma onDragEnd_accounts pg e st i :
  is_Some (currentPayload st) →
  Nat.b2n (dragStartPending (onDragEnd opts pg e st i).1.2)
  + countType DragStart (onDragEnd opts pg e st i).2
  = Nat.b2n (dragStartPending i)
  ∧ Nat.b2n (dragEndPending (onDragEnd opts pg e st i).1.2)
    + countType DragEnd (onDragEnd opts pg e st i).2
    = Nat.b2n (dragEndPending i)
  ∧ countType BeforeDragStart (onDragEnd opts pg e st i).2 = 0.
Proof.
  intros [current Hcur]. unfold onDragEnd.
  destruct (dragEndPending i) eqn:Hp; [|simpl; rewrite ?Hp; unfold countType; simpl; lia].
  rewrite Hcur. simpl. unfold countType. simpl. lia.
Qed.

Lemma withInners_accounts s f :
  tracks f →
  (∀ st i, is_Some (currentPayload st) →
     Nat.b2n (dragStartPending (f st i).1.2) + countType DragStart (f st i).2
     = Nat.b2n (dragStartPending i)
     ∧ Nat.b2n (dragEndPending (f st i).1.2) + countType DragEnd (f st i).2
       = Nat.b2n (dragEndPending i)
     ∧ countType BeforeDragStart (f st i).2 = 0) →
  assigned s →
  length (inners (withInners s f).1) = length (inners s)
  ∧ pendingStarts (inners (withInners s f).1) + countType DragStart (withInners s f).2
    = pendingStarts (inners s)
  ∧ pendingEnds (inners (withInners s f).1) + countType DragEnd (withInners s f).2
    = pendingEnds (inners s)
  ∧ countType BeforeDragStart (withInners s f).2 = 0.
Proof.
  intros Ht Hf [Hnil|Hsome].
  - rewrite withInners_no_inners by done. simpl. rewrite Hnil. done.
  - pose proof (forInners_length f (store s) (inners s)) as Hlen.
    pose proof (forInners_accounts f (store s) (inners s) Ht Hf Hsome) as Hacc.
    unfold withInners. by destruct (forInners f (store s) (inners s)) as [[st l] out].
Qed.

Lemma step_accounts s pe :
  assigned s →
  length (inners (step opts s pe).1)
  = length (inners s) + countType BeforeDragStart (step opts s pe).2
  ∧ pendingStarts (inners (step opts s pe).1) + countType DragStart (step opts s pe).2
    = pendingStarts (inners s) + countType BeforeDragStart (step opts s pe).2
  ∧ pendingEnds (inners (step opts s pe).1) + countType DragEnd (step opts s pe).2
    = pendingEnds (inners s) + countType BeforeDragStart (step opts s pe).2.
Proof.
  intros Hs.
  destruct pe as [pg [target| |target|timeStamp offsetX offsetY target|]]; cbn [step].
  - unfold onMouseDown. destruct (_ && _); [|simpl; unfold countType; simpl; lia].
    destruct (closest pg target (Options.handleSelector opts));
      [|simpl; unfold countType; simpl; lia].
    destruct (closest pg target (Options.dragElementSelector opts));
      [|simpl; unfold countType; simpl; lia].
    cbn [fst snd inners]. rewrite length_app, pendingStarts_snoc, pendingEnds_snoc.
    unfold countType. simpl. lia.
  - unfold onMouseUp. destruct (mouseupListeners s); simpl; unfold countType; simpl; lia.
  - destruct (withInners_accounts s (onDragStart opts pg (dragstart target) target))
      as (Hl & Hst & He & Hb); [apply onDragStart_tracks| |done|lia].
    intros st i _. apply onDragStart_accounts.
  - destruct (withInners_accounts s
                (onDragOver opts pg (dragover timeStamp offsetX offsetY target)
                   timeStamp offsetX offsetY target))
      as (Hl & Hst & He & Hb); [apply onDragOver_tracks| |done|lia].
    intros st i _. apply onDragOver_accounts.
  - destruct (withInners_accounts s (onDragEnd opts pg dragend))
      as (Hl & Hst & He & Hb); [apply onDragEnd_tracks| |done|lia].
    intros st i Hst. by apply onDragEnd_accounts.
Qed.

Lemma runFrom_accounts s events :
  assigned s →
  length (inners (runFrom opts s events).1)
  = length (inners s) + countType BeforeDragStart (runFrom opts s events).2
  ∧ pendingStarts (inners (runFrom opts s events).1)
    + countType DragStart (runFrom opts s events).2
    = pendingStarts (inners s) + countType BeforeDragStart (runFrom opts s events).2
  ∧ pendingEnds (inners (runFrom opts s events).1)
    + countType DragEnd (runFrom opts s events).2
    = pendingEnds (inners s) + countType BeforeDragStart (runFrom opts s events).2.
Proof.
  revert s. induction events as [|pe events IH]; intros s Hs.
  - simpl. unfold countType. simpl. lia.
  - rewrite runFrom_cons. cbn [fst snd]. rewrite !countType_app.
    destruct (step_accounts s pe Hs) as (Hl & Hst & He).
    destruct (IH _ (step_assigned opts s pe Hs)) as (Hl' & Hst' & He'). lia.
Qed.

(** Subscriptions that [takeUntil(dragEnd$)] has stopped do nothing on the
    events of [document.body]. *)
Lemma forInners_idle f (I : Inner → Prop) st l :
  (∀ st i, I i → f st i = (st, i, [])) → Forall I l → forInners f st l = (st, l, []).
Proof.
  intros Hf Hl. induction Hl as [|i l Hi _ IH]; simpl; [done|].
  by rewrite (Hf st i Hi), IH.
Qed.

Lemma withInners_idle f (I : Inner → Prop) s :
  (∀ st i, I i → f st i = (st, i, [])) → Forall I (inners s) → withInners s f = (s, []).
Proof.
  intros Hf Hl. unfold withInners. rewrite (forInners_idle f I _ _ Hf Hl).
  by rewrite engine_eta.
Qed.

Lemma step_dragend_stops s pg :
  Forall (λ i, dragEndPending i = false) (inners (step opts s (pg, dragend)).1).
Proof.
  cbn [step]. unfold withInners. generalize (store s). generalize (inners s).
  induction l as [|i l IH]; intros st; simpl; [constructor|].
  destruct (onDragEnd opts pg dragend st i) as [[st1 i1] out1] eqn:Hi.
  specialize (IH st1). destruct (forInners _ st1 l) as [[st2 l2] out2].
  simpl in *. constructor; [|done].
  revert Hi. unfold onDragEnd. destruct (dragEndPending i) eqn:Hp.
  - destruct (currentPayload st); by intros [= <- <- <-].
  - by intros [= <- <- <-].
Qed.

Lemma step_stopped s pe :
  bodyEvent pe → Forall (λ i, dragEndPending i = false) (inners s) →
  (step opts s pe).2 = [] ∧ inners (step opts s pe).1 = inners s.
Proof.
  intros He Hs.
  destruct pe as [pg [target| |target|timeStamp offsetX offsetY target|]]; try done;
    cbn [step].
  - unfold onMouseUp. by destruct (mouseupListeners s).
  - rewrite (withInners_idle _ (λ i, dragEndPending i = false)); [done| |done].
    intros st i Hi. unfold onDragOver. by rewrite Hi.
  - rewrite (withInners_idle _ (λ i, dragEndPending i = false)); [done| |done].
    intros st i Hi. unfold onDragEnd. by rewrite Hi.
Qed.

End counting.

(** X5: nothing is emitted before a [mousedown] passes the filters: the first
    payload of a run, when there is one, is a [BeforeDragStart]. *)
Theorem first_payload_is_BeforeDragStart (opts : Options.t)
    (events : list (Page * NativeEvent)) :
  match (run opts events).2 with
  | [] => True
  | p :: _ => type p = BeforeDragStart
  end.
Proof. by apply runFrom_no_inners. Qed.

(** X6: each [mousedown] that passes the filters makes one subscription, and
    a subscription gives at most one [DragStart] and at most one [DragEnd]:
    in a run, the [DragStart] payloads and the subscriptions still waiting
    for a [dragstart] add up to the [BeforeDragStart] payloads, and so do the
    [DragEnd] payloads and the subscriptions still waiting for a [dragend]. *)
Theorem payload_counts (opts : Options.t) (events : list (Page * NativeEvent)) :
  length (inners (run opts events).1) = countType BeforeDragStart (run opts events).2
  ∧ pendingStarts (inners (run opts events).1) + countType DragStart (run opts events).2
    = countType BeforeDragStart (run opts events).2
  ∧ pendingEnds (inners (run opts events).1) + countType DragEnd (run opts events).2
    = countType BeforeDragStart (run opts events).2
  ∧ countType DragStart (run opts events).2 ≤ countType BeforeDragStart (run opts events).2
  ∧ countType DragEnd (run opts events).2 ≤ countType BeforeDragStart (run opts events).2.
Proof.
  destruct (runFrom_accounts opts initial events) as (Hl & Hs & He); [by left|].
  fold (run opts events) in *. simpl in *. lia.
Qed.

(** X7: once a [dragend] has been dispatched, in any state of the engine, the
    events of [document.body] that follow ([dragover], [dragend], [mouseup])
    give no payload until a new [mousedown] or a [dragstart]. *)
Theorem quiet_after_dragend (opts : Options.t) (s : Engine) (pg : Page)
    (events : list (Page * NativeEvent)) :
  Forall bodyEvent events →
  (runFrom opts (step opts s (pg, dragend)).1 events).2 = [].
Proof.
  intros Hev. pose proof (step_dragend_stops opts s pg) as Hstop.
  revert Hstop. generalize ((step opts s (pg, dragend)).1). intros s'. revert s'.
  induction Hev as [|pe events Hpe _ IH]; intros s' Hs'; [done|].
  rewrite runFrom_cons. cbn [snd].
  destruct (step_stopped opts s' pe Hpe Hs') as [-> Hin]. simpl.
  apply IH. by rewrite Hin.
Qed.

(** After the drag of item 1 over item 2 has ended, further [dragover] and
    [dragend] events give nothing. *)
Lemma quiet_after_dragend_witness :
  (runFrom (optionsExtended Partial.empty)
     (step (optionsExtended Partial.empty)
        (run (optionsExtended Partial.empty) Demo.hoverTwice).1 (Demo.P, dragend)).1
     [(Demo.P, dragover 500 5 70 3); (Demo.P, dragend); (Demo.P, mouseup)]).2 = [].
Proof.
  apply (quiet_after_dragend (optionsExtended Partial.empty)).
  repeat constructor.
Defined.

(** X8: a [dragstart] whose target has no ancestor matching the drag-element
    selector is ignored: no payload, and the engine is as it was, its
    subscriptions still waiting for a [dragstart]. *)
Theorem dragstart_without_dragElement_ignored (opts : Options.t) (s : Engine)
    (pg : Page) (target : Elem) :
  closest pg target (Options.dragElementSelector opts) = None →
  step opts s (pg, dragstart target) = (s, []).
Proof.
  intros Hnone. cbn [step].
  apply (withInners_idle _ (λ _, True)); [|by apply Forall_true].
  intros st i _. unfold onDragStart. rewrite Hnone. by destruct (dragStartPending i).
Qed.

(** After a [mousedown] on item 1, a [dragstart] on node 9, outside the
    items, is ignored, and the [dragstart] on item 1 that follows is emitted. *)
Lemma dragstart_without_dragElement_ignored_witness :
  closest Demo.P 9 "[data-id]" = None
  ∧ type <$> (run (optionsExtended Partial.empty)
                [(Demo.P, mousedown 1); (Demo.P, dragstart 9); (Demo.P, dragstart 1)]).2
    = [BeforeDragStart; DragStart].
Proof.
  split; [reflexivity|].
  unfold run. rewrite (runFrom_cons _ initial), runFrom_cons.
  rewrite (dragstart_without_dragElement_ignored (optionsExtended Partial.empty) _ Demo.P 9)
    by reflexivity.
  reflexivity.
Defined.

(** ** The throttle *)

Section throttle.

Variable opts : Options.t.

Lemma onDragOver_emitting_opens_window pg e timeStamp offsetX offsetY target st i n :
  Options.dragOverThrottle opts = S n →
  (onDragOver opts pg e timeStamp offsetX offsetY target st i).2 ≠ [] →
  dragEndPending (onDragOver opts pg e timeStamp offsetX offsetY target st i).1.2 = true
  ∧ throttledUntil (onDragOver opts pg e timeStamp offsetX offsetY target st i).1.2
    = Some (timeStamp + S n).
Proof.
  intros Hd. unfold onDragOver. destruct (dragEndPending i) eqn:Hp; [|done].
  destruct (throttleStage opts timeStamp i) as [i1|] eqn:Hthr; [|done].
  intros _. rewrite dragOverStages_keeps.
  destruct (dragOverStages_flags opts pg e (axisOffset opts offsetX offsetY) target st i1)
    as [_ ->].
  pose proof (throttleStage_keeps opts timeStamp i i1 Hthr) as (_ & -> & _).
  split; [done|]. revert Hthr. unfold throttleStage. rewrite Hd. unfold throttleTime.
  destruct (throttledUntil i) as [u|]; [destruct (timeStamp <? u)|]; by intros [= <-].
Qed.

Lemma onDragOver_in_window pg e timeStamp offsetX offsetY target st i n u :
  Options.dragOverThrottle opts = S n →
  throttledUntil i = Some u → timeStamp < u →
  onDragOver opts pg e timeStamp offsetX offsetY target st i = (st, i, []).
Proof.
  intros Hd Hu Hlt. unfold onDragOver. destruct (dragEndPending i); [|done].
  unfold throttleStage. rewrite Hd, Hu. unfold throttleTime.
  by rewrite (proj2 (Nat.ltb_lt timeStamp u) Hlt).
Qed.

End throttle.

(** X9: with a throttle interval set and one subscription, after a [dragover]
    at time [t] that gave a payload, a [dragover] less than the interval
    later gives none, whatever its offsets, target and page, and leaves the
    whole engine as it was. *)
Theorem dragOver_throttle_window (opts : Options.t) (s : Engine) (i : Inner) (n : nat)
    (pg pg' : Page) (t t' : nat) (offsetX offsetY offsetX' offsetY' : float)
    (target target' : Elem) :
  Options.dragOverThrottle opts = S n →
  inners s = [i] →
  (step opts s (pg, dragover t offsetX offsetY target)).2 ≠ [] →
  t' < t + S n →
  step opts (step opts s (pg, dragover t offsetX offsetY target)).1
    (pg', dragover t' offsetX' offsetY' target')
  = ((step opts s (pg, dragover t offsetX offsetY target)).1, []).
Proof.
  intros Hd Hi Hout Hlt. revert Hout. cbn [step].
  rewrite (withInners_single s _ i Hi). cbn [fst snd]. intros Hout.
  destruct (onDragOver_emitting_opens_window opts pg _ t offsetX offsetY target
              (store s) i n Hd Hout) as [_ Hu].
  set (r := onDragOver opts pg (dragover t offsetX offsetY target) t offsetX offsetY
              target (store s) i) in *.
  rewrite (withInners_single _ _ r.1.2) by reflexivity. cbn [store].
  rewrite (onDragOver_in_window opts pg' _ t' offsetX' offsetY' target' _ _ n _ Hd Hu Hlt).
  reflexivity.
Qed.

(** Item 1 is dragged over item 2 at time 0; 19 ms later, with the default
    interval of 20 ms, a [dragover] over item 3 at another offset is dropped. *)
Lemma dragOver_throttle_window_witness :
  (step (optionsExtended Partial.empty)
     (run (optionsExtended Partial.empty) Demo.grabOne).1
     (Demo.P, dragover 0 5 20 2)).2 ≠ []
  ∧ (step (optionsExtended Partial.empty)
       (step (optionsExtended Partial.empty)
          (run (optionsExtended Partial.empty) Demo.grabOne).1
          (Demo.P, dragover 0 5 20 2)).1
       (Demo.P, dragover 19 5 70 3)).2 = [].
Proof.
  assert (H : (step (optionsExtended Partial.empty)
                 (run (optionsExtended Partial.empty) Demo.grabOne).1
                 (Demo.P, dragover 0 5 20 2)).2 ≠ []) by (vm_compute; discriminate).
  split; [exact H|].
  eassert (Hi : inners (run (optionsExtended Partial.empty) Demo.grabOne).1 = [_])
    by (vm_compute; reflexivity).
  rewrite (dragOver_throttle_window (optionsExtended Partial.empty) _ _ 19
             Demo.P Demo.P 0 19 5 20 5 70 2 3 eq_refl Hi H); [reflexivity|lia].
Defined.

(** ** Where each payload comes from *)

(** X10: every [BeforeDragStart] payload of a run comes from a [mousedown] of
    the run whose target is an [HTMLElement], passes [onBeforeDragStart] when
    there is one, and has an ancestor matching the handle selector and one
    matching the drag-element selector; it carries that drag element alone,
    whatever the selection, and its scroll container. *)
Theorem beforeDragStart_provenance (opts : Options.t)
    (events : list (Page * NativeEvent)) (p : DragDropPayload) :
  p ∈ (run opts events).2 →
  type p = BeforeDragStart →
  ∃ pg target h d,
    (pg, mousedown target) ∈ events
    ∧ originalEvent p = mousedown target
    ∧ isHTMLElement pg target = true
    ∧ match Options.onBeforeDragStart opts with
      | Some onBeforeDragStart => onBeforeDragStart pg target
      | None => true
      end = true
    ∧ closest pg target (Options.handleSelector opts) = Some h
    ∧ closest pg target (Options.dragElementSelector opts) = Some d
    ∧ dragElements p = [d]
    ∧ scrollContainer p = getClosestScrollContainer pg d.
Proof.
  intros Hin Hty. apply runFrom_emitted in Hin as (s & [pg e] & Hev & Hp).
  pose proof (step_emitted_type opts s pg e p Hp) as Hty'.
  destruct e as [target| |t|ts ox oy t|]; try congruence; try done.
  revert Hp. cbn [step]. unfold onMouseDown.
  destruct (isHTMLElement pg target) eqn:Hhtml; [|by intros ?%elem_of_nil].
  destruct (match Options.onBeforeDragStart opts with
            | Some f => f pg target | None => true end) eqn:Hveto;
    [|by intros ?%elem_of_nil].
  destruct (closest pg target (Options.handleSelector opts)) as [h|] eqn:Hh;
    [|by intros ?%elem_of_nil].
  destruct (closest pg target (Options.dragElementSelector opts)) as [d|] eqn:Hd;
    [|by simpl; intros ?%elem_of_nil].
  simpl. intros ->%list_elem_of_singleton. by exists pg, target, h, d.
Qed.

Lemma beforeDragStart_provenance_witness :
  ∃ p, p ∈ (run (optionsExtended Demo.selecting) Demo.reselect).2
       ∧ type p = BeforeDragStart ∧ dragElements p = [2].
Proof.
  eexists. split; [vm_compute; left|]. split; [reflexivity|].
  match goal with |- dragElements ?p = _ =>
    destruct (beforeDragStart_provenance (optionsExtended Demo.selecting)
                Demo.reselect p) as (pg & target & h & d & _ & Ho & _ & _ & _ & Hd & He & _)
  end; [vm_compute; left|reflexivity|].
  reflexivity.
Defined.

(** X11: every [DragOver] payload of a run comes from a [dragover] of the run
    whose target has an ancestor matching the drop-element selector inside
    the container; it carries that element as drop element, a position other
    than [none], and the scroll container of the drop element. *)
Theorem dragOver_provenance (opts : Options.t)
    (events : list (Page * NativeEvent)) (p : DragDropPayload) :
  p ∈ (run opts events).2 →
  type p = DragOver →
  ∃ pg timeStamp offsetX offsetY target d pos,
    (pg, dragover timeStamp offsetX offsetY target) ∈ events
    ∧ originalEvent p = dragover timeStamp offsetX offsetY target
    ∧ closest pg target (Options.dropElementSelector opts) = Some d
    ∧ contains pg (Options.container opts) d = true
    ∧ dropElement p = Some d
    ∧ position p = Some pos ∧ pos ≠ PosNone
    ∧ scrollContainer p = getClosestScrollContainer pg d.
Proof.
  intros Hin Hty. apply runFrom_emitted in Hin as (s & [pg e] & Hev & Hp).
  pose proof (step_emitted_type opts s pg e p Hp) as Hty'.
  destruct e as [t| |t|timeStamp offsetX offsetY target|]; try congruence; try done.
  revert Hp. cbn [step]. intros (st & i & Hp)%withInners_emitted. revert Hp.
  unfold onDragOver, dragOverStages.
  destruct (dragEndPending i); [|by intros ?%elem_of_nil].
  destruct (throttleStage opts timeStamp i) as [i1|]; [|by intros ?%elem_of_nil].
  destruct (sameOffset i1 _); [by intros ?%elem_of_nil|].
  destruct (closest pg target _) as [d|] eqn:Hd; [|by intros ?%elem_of_nil].
  destruct (currentPayload st); [|by intros ?%elem_of_nil].
  destruct (calcPositionLocal _ _ _ _ _ _) as [pos cache].
  destruct (sameResult _ _ _); [by intros ?%elem_of_nil|].
  destruct (bool_decide (pos ≠ PosNone)) eqn:Hnone; [|by intros ?%elem_of_nil].
  destruct (contains pg _ d) eqn:Hc; [|by intros ?%elem_of_nil].
  apply bool_decide_eq_true in Hnone.
  simpl. intros ->%list_elem_of_singleton.
  by exists pg, timeStamp, offsetX, offsetY, target, d, pos.
Qed.

Lemma dragOver_provenance_witness :
  ∃ p, p ∈ (run (optionsExtended Partial.empty) Demo.dragOneOverTwo).2
       ∧ type p = DragOver ∧ dropElement p = Some 2.
Proof.
  eexists. split; [vm_compute; right; right; left|]. split; [reflexivity|].
  match goal with |- dropElement ?p = _ =>
    destruct (dragOver_provenance (optionsExtended Partial.empty)
                Demo.dragOneOverTwo p) as (pg & ts & ox & oy & t & d & pos & _)
  end; [vm_compute; right; right; left|reflexivity|].
  reflexivity.
Defined.

(** X12: the element a [dragstart] resolved to is always among the dragged
    elements of the [DragStart] payload, every selected element is too, and
    the list has no duplicates when the selection has none. *)
Theorem dragStart_contains_dragged (opts : Options.t) (s : Engine) (pg : Page)
    (target : Elem) (p : DragDropPayload) :
  p ∈ (step opts s (pg, dragstart target)).2 →
  ∃ d,
    closest pg target (Options.dragElementSelector opts) = Some d
    ∧ d ∈ dragElements p
    ∧ ∀ getSelectedElements,
        Options.getSelectedElements opts = Some getSelectedElements →
        (∀ x, x ∈ getSelectedElements pg → x ∈ dragElements p)
        ∧ (NoDup (getSelectedElements pg) → NoDup (dragElements p)).
Proof.
  intros Hp. destruct (step_dragstart_payload opts s pg target p Hp) as (d & Hc & Hd).
  exists d. split; [done|]. rewrite Hd. split; [apply getCombinedSelectedElements_elem|].
  intros f Hf. rewrite getCombinedSelectedElements_cases, Hf.
  case_bool_decide as Hin; [done|]. split.
  - intros x Hx. apply elem_of_app. by left.
  - intros Hnd. apply NoDup_app. split; [done|]. split; [|apply NoDup_singleton].
    intros x Hx ->%list_elem_of_singleton. done.
Qed.

Lemma dragStart_contains_dragged_witness :
  ∃ p,
    p ∈ (step (optionsExtended Demo.selecting)
           (run (optionsExtended Demo.selecting) [(Demo.Q, mousedown 3)]).1
           (Demo.Q, dragstart 3)).2
    ∧ 3 ∈ dragElements p.
Proof.
  eexists. split; [vm_compute; left|].
  match goal with |- _ ∈ dragElements ?p =>
    destruct (dragStart_contains_dragged (optionsExtended Demo.selecting)
                (run (optionsExtended Demo.selecting) [(Demo.Q, mousedown 3)]).1
                Demo.Q 3 p) as (d & Hc & Hd & _)
  end; [vm_compute; left|].
  injection Hc as <-. exact Hd.
Defined.

(** ** More on the position calculator *)

Lemma SFcompare_refl_not_nan f : f ≠ S754_nan → SFcompare f f = Some Eq.
Proof.
  destruct f as [[]|[]| |s m e]; simpl; try done.
  intros _. change (PosDef.Pos.compare_cont Eq m m) with (Pos.compare m m).
  rewrite Z.compare_refl, Pos.compare_refl. by destruct s.
Qed.

(** A number that differs from itself is [NaN]: it is less than no number
    and no number is less than it. *)
Lemma lt_nan o x : Num.seq o o = false → Num.lt o x = false ∧ Num.gt o x = false.
Proof.
  unfold Num.seq, Num.lt, Num.gt. rewrite FloatAxioms.eqb_spec, !FloatAxioms.ltb_spec.
  unfold SFeqb, SFltb. intros Heq.
  assert (Hnan : Prim2SF o = S754_nan).
  { destruct (Prim2SF o) as [[]|[]| |sg m e] eqn:Ho; try done;
      by rewrite SFcompare_refl_not_nan in Heq. }
  rewrite Hnan. split; [done|]. by destruct (Prim2SF x).
Qed.

(** X13: at an offset that is [NaN] no comparison holds: the rules [all] and
    [notAfter] answer [in] and [around] answers [after], whatever the size
    and the threshold; it is never [before]. *)
Theorem calcPosition_nan_offset (rule : DropPositionRules) (t : option float)
    (o s : float) :
  Num.seq o o = false →
  calcPosition rule t o s
  = match rule with
    | RuleAll | RuleNotAfter | RuleIn => PosIn
    | RuleAround | RuleAfter => PosAfter
    | RuleNone => PosNone
    | RuleBefore => PosBefore
    end.
Proof.
  intros Hnan. destruct rule; simpl; try done.
  - destruct (lt_nan o (s * default threshold_default t) Hnan) as [-> _].
    by destruct (lt_nan o (s * (1 - default threshold_default t)) Hnan) as [_ ->].
  - by destruct (lt_nan o (s * default threshold_default t) Hnan) as [-> _].
  - by destruct (lt_nan o (s / 2) Hnan) as [-> _].
Qed.

Lemma calcPosition_nan_offset_witness :
  Num.seq PrimFloat.nan PrimFloat.nan = false
  ∧ calcPosition RuleAll None PrimFloat.nan 100 = PosIn.
Proof.
  split; [reflexivity|].
  by rewrite (calcPosition_nan_offset RuleAll None PrimFloat.nan 100).
Defined.

(** X14: what a rule never answers: [all] never [none]; [notAfter] neither
    [after] nor [none]; [around] neither [in] nor [none]; and [notAfter]
    answers as [all] does, with [in] where [all] answers [after]. *)
Theorem calcPosition_ranges (t : option float) (o s : float) :
  calcPosition RuleAll t o s ≠ PosNone
  ∧ calcPosition RuleNotAfter t o s ≠ PosAfter
  ∧ calcPosition RuleNotAfter t o s ≠ PosNone
  ∧ calcPosition RuleAround t o s ≠ PosIn
  ∧ calcPosition RuleAround t o s ≠ PosNone
  ∧ calcPosition RuleNotAfter t o s
    = match calcPosition RuleAll t o s with
      | PosAfter => PosIn
      | p => p
      end.
Proof.
  simpl. repeat (destruct (Num.lt _ _) || destruct (Num.gt _ _)); repeat split; congruence.
Qed.

(** X15: the position computed for a [dragover] is [none] exactly when the
    drop element is the drag element handed in or [dropPositionFn] answers
    the rule [none]: neither the offset, the geometry, the threshold nor the
    rectangle cache can make it [none]. *)
Theorem calcPositionLocal_none_iff (opts : Options.t) (pg : Page)
    (cache : gmap (option string) Rect) (d : Elem) (dragElement : option Elem)
    (offset : float) :
  (calcPositionLocal opts pg cache d dragElement offset).1 = PosNone
  ↔ dragElement = Some d
    ∨ Options.dropPositionFn opts pg d dragElement = RuleNone.
Proof.
  rewrite calcPositionLocal_none. unfold localRule.
  case_bool_decide as H.
  - split; [by right|]. by intros [?|?].
  - split; [|done]. intros _. left.
    destruct (decide (dragElement = Some d)); [done|]. by destruct H.
Qed.

(** ** More on the configuration *)

(** X16: a supplied handle selector that is a non-empty string is kept; a
    handle selector supplied as [undefined] or as the empty string gives way
    to the resolved drag-element selector; and the resolved handle selector
    is empty only if the resolved drag-element selector is. *)
Theorem handleSelector_resolution (supplied : Partial.t) :
  (∀ h, Partial.handleSelector supplied = Some (Some h) → h ≠ EmptyString →
        Options.handleSelector (optionsExtended supplied) = h)
  ∧ (∀ h, Partial.handleSelector supplied = Some h → truthy h = false →
          Options.handleSelector (optionsExtended supplied)
          = Options.dragElementSelector (optionsExtended supplied))
  ∧ (∀ d, Partial.dragElementSelector supplied = Some d →
          Options.dragElementSelector (optionsExtended supplied) = d)
  ∧ (Options.handleSelector (optionsExtended supplied) = EmptyString →
     Options.dragElementSelector (optionsExtended supplied) = EmptyString).
Proof.
  split; [|split; [|split]].
  - intros h Hh Hne. unfold optionsExtended. simpl. rewrite Hh. simpl.
    by rewrite bool_decide_eq_false_2.
  - intros h Hh Hf. by apply handleSelector_falsy with h.
  - intros d Hd. unfold optionsExtended. simpl. by rewrite Hd.
  - unfold optionsExtended. simpl.
    destruct (Partial.handleSelector supplied) as [[h|]|]; simpl; try done.
    case_bool_decide; simpl; [done|]. intros ->. done.
Qed.

Lemma handleSelector_resolution_witness :
  truthy None = false
  ∧ Options.handleSelector (optionsExtended Demo.itemsNoHandle) = ".item".
Proof.
  split; [reflexivity|].
  destruct (handleSelector_resolution Demo.itemsNoHandle) as (_ & Hfall & Hdrag & _).
  rewrite (Hfall None eq_refl eq_refl). by apply Hdrag.
Defined.

(** ** The native event of a payload *)

Lemma step_originalEvent (opts : Options.t) s pg e p :
  p ∈ (step opts s (pg, e)).2 → originalEvent p = e.
Proof.
  destruct e as [target| |target|timeStamp offsetX offsetY target|]; cbn [step].
  - unfold onMouseDown. destruct (_ && _); [|by intros ?%elem_of_nil].
    destruct (closest pg target (Options.handleSelector opts)); [|by intros ?%elem_of_nil].
    destruct (closest pg target (Options.dragElementSelector opts));
      [|by intros ?%elem_of_nil].
    simpl. by intros ->%list_elem_of_singleton.
  - unfold onMouseUp. destruct (mouseupListeners s); by intros ?%elem_of_nil.
  - intros (st' & i & Hp')%withInners_emitted. revert Hp'. unfold onDragStart.
    destruct (dragStartPending i); [|by intros ?%elem_of_nil].
    destruct (closest pg target _); [|by intros ?%elem_of_nil].
    simpl. by intros ->%list_elem_of_singleton.
  - intros (st' & i & Hp')%withInners_emitted. revert Hp'.
    unfold onDragOver, dragOverStages.
    destruct (dragEndPending i); [|by intros ?%elem_of_nil].
    destruct (throttleStage opts timeStamp i) as [i1|]; [|by intros ?%elem_of_nil].
    destruct (sameOffset i1 _); [by intros ?%elem_of_nil|].
    destruct (closest pg target _); [|by intros ?%elem_of_nil].
    destruct (currentPayload st'); [|by intros ?%elem_of_nil].
    destruct (calcPositionLocal _ _ _ _ _ _) as [position cache].
    destruct (sameResult _ _ _); [by intros ?%elem_of_nil|].
    destruct (_ && _); [|by intros ?%elem_of_nil].
    simpl. by intros ->%list_elem_of_singleton.
  - intros (st' & i & Hp')%withInners_emitted. revert Hp'. unfold onDragEnd.
    destruct (dragEndPending i); [|by intros ?%elem_of_nil].
    destruct (currentPayload st'); [|by intros ?%elem_of_nil].
    simpl. by intros ->%list_elem_of_singleton.
Qed.

(** X17: the original event of every payload of a run is a native event of
    the run, of the kind its type names: [mousedown] for [BeforeDragStart],
    [dragstart] for [DragStart], [dragover] for [DragOver], [dragend] for
    [DragEnd]; a [mouseup] gives no payload. *)
Theorem originalEvent_matches_type (opts : Options.t)
    (events : list (Page * NativeEvent)) (p : DragDropPayload) :
  p ∈ (run opts events).2 →
  ∃ pg,
    (pg, originalEvent p) ∈ events
    ∧ match originalEvent p with
      | mousedown _ => type p = BeforeDragStart
      | mouseup => False
      | dragstart _ => type p = DragStart
      | dragover _ _ _ _ => type p = DragOver
      | dragend => type p = DragEnd
      end.
Proof.
  intros (s & [pg e] & Hev & Hp)%runFrom_emitted.
  rewrite (step_originalEvent opts s pg e p Hp). exists pg. split; [done|].
  by apply (step_emitted_type opts s pg e p).
Qed.

Lemma originalEvent_matches_type_witness :
  ∃ p, p ∈ (run (optionsExtended Partial.empty) Demo.dragOneAndRelease).2
       ∧ originalEvent p = dragend ∧ type p = DragEnd.
Proof.
  eexists. split; [vm_compute; right; right; left|].
  match goal with |- originalEvent ?p = _ ∧ _ =>
    destruct (originalEvent_matches_type (optionsExtended Partial.empty)
                Demo.dragOneAndRelease p) as (pg & _ & Hty)
  end; [vm_compute; right; right; left|].
  split; [reflexivity|exact Hty].
Defined.

(** ** One payload for each waiting subscription *)

Section per_subscription.

Variable opts : Options.t.

Lemma forInners_onDragStart pg e target d st l :
  closest pg target (Options.dragElementSelector opts) = Some d →
  (forInners (onDragStart opts pg e target) st l).2
  = replicate (pendingStarts l)
      (createPayload opts DragStart e (getCombinedSelectedElements opts pg d)
         (getClosestScrollContainer pg d) None None).
Proof.
  intros Hd. revert st. induction l as [|i l IH]; intros st; [done|].
  cbn [forInners]. rewrite pendingStarts_cons. unfold onDragStart at 1. rewrite Hd.
  destruct (dragStartPending i).
  - specialize (IH (emit (createPayload opts DragStart e
                            (getCombinedSelectedElements opts pg d)
                            (getClosestScrollContainer pg d) None None)
                      (flushRectCache st))).
    destruct (forInners _ _ l) as [[st2 l2] out2]. simpl in *. by rewrite IH.
  - specialize (IH st). destruct (forInners _ st l) as [[st2 l2] out2]. simpl in *. done.
Qed.

Lemma countType_all t out :
  Forall (λ p, type p = t) out → countType t out = length out.
Proof.
  intros H. unfold countType. induction H as [|p out Hp _ IH]; [done|].
  rewrite filter_cons. destruct (decide (type p = t)); [|done]. simpl. by rewrite IH.
Qed.

Lemma pendingEnds_none l :
  Forall (λ i, dragEndPending i = false) l → pendingEnds l = 0.
Proof.
  intros H. unfold pendingEnds. induction H as [|i l Hi _ IH]; [done|].
  rewrite filter_cons. destruct (decide (dragEndPending i = true)); [congruence|done].
Qed.

End per_subscription.

(** X18: a [dragstart] that resolves to a drag element gives one [DragStart]
    payload for each subscription still waiting for a [dragstart], all the
    same; a [dragend] gives one [DragEnd] payload for each subscription still
    waiting for a [dragend]. *)
Theorem one_payload_per_waiting_subscription (opts : Options.t) (s : Engine) (pg : Page)
    (target : Elem) :
  (∀ d, closest pg target (Options.dragElementSelector opts) = Some d →
        (step opts s (pg, dragstart target)).2
        = replicate (pendingStarts (inners s))
            (createPayload opts DragStart (dragstart target)
               (getCombinedSelectedElements opts pg d)
               (getClosestScrollContainer pg d) None None))
  ∧ (assigned s → length (step opts s (pg, dragend)).2 = pendingEnds (inners s)).
Proof.
  split.
  - intros d Hd. cbn [step]. unfold withInners.
    pose proof (forInners_onDragStart opts pg (dragstart target) target d
                  (store s) (inners s) Hd) as H.
    by destruct (forInners _ (store s) (inners s)) as [[st l] out].
  - intros Hs. destruct (step_accounts opts s (pg, dragend) Hs) as (_ & _ & He).
    assert (Hty : Forall (λ p, type p = DragEnd) (step opts s (pg, dragend)).2).
    { apply Forall_forall. intros p Hp. by apply (step_emitted_type opts s pg dragend). }
    rewrite (countType_all DragEnd _ Hty) in He.
    rewrite (countType_Forall BeforeDragStart DragEnd _ ltac:(done) Hty) in He.
    rewrite (pendingEnds_none _ (step_dragend_stops opts s pg)) in He. lia.
Qed.

(** After two pointer-downs on item 1, the first released without a drag,
    one [dragstart] gives two [DragStart] payloads. *)
Lemma one_payload_per_waiting_subscription_witness :
  closest Demo.P 1 "[data-id]" = Some 1
  ∧ length (step (optionsExtended Partial.empty)
              (run (optionsExtended Partial.empty)
                 [(Demo.P, mousedown 1); (Demo.P, mouseup); (Demo.P, mousedown 1)]).1
              (Demo.P, dragstart 1)).2 = 2.
Proof.
  split; [reflexivity|].
  destruct (one_payload_per_waiting_subscription (optionsExtended Partial.empty)
              (run (optionsExtended Partial.empty)
                 [(Demo.P, mousedown 1); (Demo.P, mouseup); (Demo.P, mousedown 1)]).1
              Demo.P 1) as [H _].
  rewrite (H 1 eq_refl). reflexivity.
Defined.

(** * The dragged elements by reference *)

Section by_reference.

Variable opts : Options.t.

(** The payloads the listeners of [document.body] emit carry the dragged
    elements of the stored payload. *)
Lemma step_body_dragElements s pg e :
  bodyEvent (pg, e) →
  (step opts s (pg, e)).2 = []
  ∨ ∃ q, currentPayload (store s) = Some q
         ∧ Forall (λ p, dragElements p = dragElements q) (step opts s (pg, e)).2.
Proof.
  intros He.
  assert (Hty : Forall (λ p, type p = DragOver ∨ type p = DragEnd) (step opts s (pg, e)).2).
  { apply Forall_forall. intros p Hp.
    pose proof (step_emitted_type opts s pg e p Hp) as H.
    destruct e; try done; first [by left | by right]. }
  destruct (step_tracks opts s (pg, e)) as [Hch _].
  destruct (step opts s (pg, e)).2 as [|p out] eqn:Hout; [by left|]. right.
  destruct Hch as [Hp Hch]. inversion Hty as [|? ? Hpty Hrest]; subst.
  destruct (Hp Hpty) as (q & Hq & Hpq). exists q. split; [done|].
  constructor; [done|]. rewrite <- Hpq. by apply chained_same_dragElements.
Qed.

Lemma refresh_own arrays pg s : shared s = None → refresh opts arrays pg s = engine s.
Proof. intros H. unfold refresh. by rewrite H. Qed.

Lemma refresh_unassigned arrays pg s :
  currentPayload (store (engine s)) = None → refresh opts arrays pg s = engine s.
Proof. intros H. unfold refresh. rewrite H. by destruct (shared s). Qed.

Lemma refresh_shared arrays pg s α q :
  shared s = Some α → currentPayload (store (engine s)) = Some q →
  currentPayload (store (refresh opts arrays pg s))
  = Some (setDragElements (readArray opts arrays pg α) q).
Proof. intros Hs Hq. unfold refresh. by rewrite Hs, Hq. Qed.

Lemma chainedByRef_app prev a b :
  chainedByRef prev (a ++ b)
  ↔ chainedByRef prev a ∧ chainedByRef (from_option Some prev (last a)) b.
Proof.
  revert prev. induction a as [|pt a IH]; intros prev; simpl; [tauto|].
  rewrite IH. destruct a as [|pt' a]; [simpl; tauto|].
  rewrite last_cons_cons. simpl. destruct (last (pt' :: a)) eqn:Hl; [tauto|].
  by apply last_None in Hl.
Qed.

Lemma chainedByRef_started prev out :
  Forall (λ pt : DragDropPayload * option nat,
            type pt.1 = BeforeDragStart ∨ type pt.1 = DragStart) out →
  chainedByRef prev out.
Proof.
  intros H. revert prev. induction H as [|pt out Hpt _ IH]; intros prev; [done|].
  split; [|apply IH]. intros [Hty|Hty]; destruct Hpt as [H|H]; congruence.
Qed.

Lemma chainedByRef_passed_on prev (t : option nat) q l :
  (∃ qt, prev = Some qt ∧ t = qt.2 ∧ (t = None → dragElements q = dragElements qt.1)) →
  Forall (λ p, dragElements p = dragElements q) l →
  chainedByRef prev ((λ p, (p, t)) <$> l).
Proof.
  intros Hprev Hl. revert prev Hprev.
  induction Hl as [|p l Hp _ IH]; intros prev Hprev; [done|].
  cbn [fmap list_fmap chainedByRef]. split.
  - intros _. destruct Hprev as (qt & Hqt & Ht & Hd). exists qt.
    split; [done|]. split; [done|]. cbn [fst snd]. intros Hnone. rewrite Hp. by apply Hd.
  - apply IH. exists (p, t). by repeat split.
Qed.

Lemma stepByRef_tag_unchanged s arrays pg e :
  (step opts (refresh opts arrays pg s) (pg, e)).2 = [] ∨ bodyEvent (pg, e) →
  shared (stepByRef opts s (arrays, pg, e)).1 = shared s.
Proof.
  unfold stepByRef. cbn [fst shared]. intros [H|H].
  - rewrite H. by destruct e.
  - by destruct e.
Qed.

Lemma stepByRef_out s arrays pg e :
  (stepByRef opts s (arrays, pg, e)).2
  = (λ p, (p, shared (stepByRef opts s (arrays, pg, e)).1))
      <$> (step opts (refresh opts arrays pg s) (pg, e)).2.
Proof. done. Qed.

Lemma stepByRef_chained s prev ev :
  agrees s prev →
  chainedByRef prev (stepByRef opts s ev).2
  ∧ agrees (stepByRef opts s ev).1 (from_option Some prev (last (stepByRef opts s ev).2)).
Proof.
  intros Hag. destruct ev as [[arrays pg] e].
  pose proof (stepByRef_out s arrays pg e) as Hout.
  pose proof (stepByRef_tag_unchanged s arrays pg e) as Htag.
  set (s' := (stepByRef opts s (arrays, pg, e)).1) in *.
  assert (Hs' : engine s' = (step opts (refresh opts arrays pg s) (pg, e)).1) by done.
  destruct (step_tracks opts (refresh opts arrays pg s) (pg, e)) as [_ Hlast].
  rewrite <- Hs' in Hlast. rewrite Hout.
  set (r := (step opts (refresh opts arrays pg s) (pg, e)).2) in *.
  assert (Hsame : ∀ q, currentPayload (store (engine s)) = Some q →
            ∃ q', currentPayload (store (refresh opts arrays pg s)) = Some q'
                  ∧ (shared s = None → q' = q)).
  { intros q Hq. destruct (shared s) as [α|] eqn:Hsh.
    - eexists. split; [by apply refresh_shared|done].
    - exists q. by rewrite refresh_own. }
  split.
  - assert (He : bodyEvent (pg, e) ∨ ¬ bodyEvent (pg, e))
      by (destruct e; unfold bodyEvent; simpl; tauto).
    destruct He as [He|He].
    + rewrite (Htag (or_intror He)).
      destruct (step_body_dragElements (refresh opts arrays pg s) pg e He)
        as [Hnil|(q' & Hq' & Hall)]; fold r in Hnil || fold r in Hall.
      * by rewrite Hnil.
      * apply (chainedByRef_passed_on _ _ q'); [|done].
        destruct prev as [qt|]; simpl in Hag.
        -- destruct Hag as (Hsh & q & Hq & Hd). exists qt. split; [done|].
           split; [done|]. intros Hnone.
           destruct (Hsame q Hq) as (q'' & Hq'' & Heq). rewrite Hq' in Hq''.
           injection Hq'' as <-. rewrite (Heq Hnone). apply Hd. by rewrite <- Hsh.
        -- rewrite refresh_unassigned in Hq' by done. congruence.
    + apply chainedByRef_started. apply Forall_fmap, Forall_forall. intros p Hp. cbn [fst].
      pose proof (step_emitted_type opts (refresh opts arrays pg s) pg e p Hp) as H.
      destruct e; try done; [by left|by right|..]; by destruct He.
  - destruct r as [|p l] eqn:Hr.
    + cbn [fmap list_fmap last from_option]. unfold lastPayload in Hlast. simpl in Hlast.
      destruct prev as [qt|]; simpl in *.
      * destruct Hag as (Hsh & q & Hq & Hd). rewrite (Htag (or_introl eq_refl)).
        split; [done|]. destruct (Hsame q Hq) as (q' & Hq' & Heq).
        exists q'. rewrite Hlast. split; [done|]. intros Hnone.
        rewrite Heq by by rewrite Hsh. by apply Hd.
      * rewrite Hlast. by rewrite refresh_unassigned.
    + rewrite fmap_last. destruct (last (p :: l)) as [pl|] eqn:Hl;
        [|by apply last_None in Hl].
      unfold lastPayload in Hlast. rewrite Hl in Hlast.
      simpl. split; [done|]. by exists pl.
Qed.

Lemma runByRefFrom_cons s ev events :
  runByRefFrom opts s (ev :: events)
  = ((runByRefFrom opts (stepByRef opts s ev).1 events).1,
     (stepByRef opts s ev).2 ++ (runByRefFrom opts (stepByRef opts s ev).1 events).2).
Proof.
  cbn [runByRefFrom]. destruct (stepByRef opts s ev) as [s1 out1]. cbn [fst snd].
  by destruct (runByRefFrom opts s1 events) as [s2 out2].
Qed.

Lemma runByRefFrom_chained s prev events :
  agrees s prev → chainedByRef prev (runByRefFrom opts s events).2.
Proof.
  revert s prev. induction events as [|ev events IH]; intros s prev Hag; [done|].
  rewrite runByRefFrom_cons. cbn [snd]. apply chainedByRef_app.
  destruct (stepByRef_chained s prev ev Hag) as [Hch Hag']. split; [done|].
  by apply IH.
Qed.

Lemma chainedByRef_same_array (ds : DragDropPayload) (tag : option nat) mid :
  chainedByRef (Some (ds, tag)) mid →
  Forall (λ pt : DragDropPayload * option nat,
            type pt.1 = DragOver ∨ type pt.1 = DragEnd) mid →
  Forall (λ pt : DragDropPayload * option nat,
            pt.2 = tag ∧ (tag = None → dragElements pt.1 = dragElements ds)) mid.
Proof.
  revert ds tag. induction mid as [|pt mid IH]; intros ds tag Hc Hty; [constructor|].
  destruct Hc as [Hp Hc]. inversion Hty as [|? ? Hpty Hmid]; subst.
  destruct (Hp Hpty) as (qt & [= <-] & Ht & Hd). cbn [fst snd] in *.
  constructor; [split; [done|]; intros Hnone; apply Hd; by rewrite Ht|].
  destruct pt as [p t]. cbn [fst snd] in *. subst t.
  eapply Forall_impl; [by apply (IH p tag)|].
  intros pt' [Ht' Hd']. split; [done|]. intros Hnone. rewrite Hd' by done. by apply Hd.
Qed.

Lemma runByRefFrom_emitted s events pt :
  pt ∈ (runByRefFrom opts s events).2 →
  ∃ s' ev, ev ∈ events ∧ pt ∈ (stepByRef opts s' ev).2.
Proof.
  revert s. induction events as [|ev events IH]; intros s.
  - intros H. by apply elem_of_nil in H.
  - rewrite runByRefFrom_cons. cbn [snd]. intros [H|H]%elem_of_app.
    + exists s, ev. split; [left|done].
    + destruct (IH _ H) as (s' & ev' & Hin & Hp). exists s', ev'. split; [by right|done].
Qed.

(** A [DragOver] or [DragEnd] payload has the array object of the stored
    payload, and when that is the provider's array, the contents the array
    has when the event is dispatched. *)
Lemma stepByRef_passed_on s arrays pg e pt :
  pt ∈ (stepByRef opts s (arrays, pg, e)).2 →
  type pt.1 = DragOver ∨ type pt.1 = DragEnd →
  originalEvent pt.1 = e
  ∧ pt.2 = shared s
  ∧ ∀ α, pt.2 = Some α → dragElements pt.1 = readArray opts arrays pg α.
Proof.
  rewrite stepByRef_out. intros (p & -> & Hp)%list_elem_of_fmap Hty. cbn [fst snd] in *.
  pose proof (step_emitted_type opts _ pg e p Hp) as Hkind.
  assert (He : bodyEvent (pg, e)) by (destruct e; try done; destruct Hty; congruence).
  rewrite (stepByRef_tag_unchanged s arrays pg e (or_intror He)).
  split; [by apply (step_originalEvent opts (refresh opts arrays pg s) pg e p)|].
  split; [done|].
  intros α Hα.
  destruct (step_body_dragElements (refresh opts arrays pg s) pg e He)
    as [Hnil|(q' & Hq' & Hall)].
  - rewrite Hnil in Hp. by apply elem_of_nil in Hp.
  - rewrite Forall_forall in Hall. rewrite (Hall p Hp).
    destruct (currentPayload (store (engine s))) as [q|] eqn:Hq.
    + rewrite (refresh_shared arrays pg s α q Hα Hq) in Hq'. by injection Hq' as <-.
    + rewrite refresh_unassigned in Hq' by done. congruence.
Qed.

Lemma stepByRef_started s arrays pg e pt :
  pt ∈ (stepByRef opts s (arrays, pg, e)).2 →
  type pt.1 = DragStart →
  ∃ target, e = dragstart target ∧ pt.2 = sharedAtDragStart opts arrays pg target.
Proof.
  unfold stepByRef. cbn [snd]. intros (p & -> & Hp)%list_elem_of_fmap Hty. cbn [fst snd] in *.
  pose proof (step_emitted_type opts _ pg e p Hp) as Hkind.
  destruct e as [t| |target|? ? ? t|]; try congruence; try done.
  exists target. split; [done|].
  destruct (step opts _ (pg, dragstart target)).2; [by apply elem_of_nil in Hp|done].
Qed.

End by_reference.

(** C6, as amended: in the stream of one engine, the [DragOver] and [DragEnd]
    payloads that follow a [DragStart] payload have its array object as
    their dragged elements: the provider's array when the dragged element
    was in the selection as the drag started, else an array the engine
    built.  An array the engine built keeps its contents, whatever the
    provider returns meanwhile; the provider's array is shown with the
    contents it has when each event is dispatched. *)
Theorem dragElements_same_array (opts : Options.t)
    (events : list (Arrays * Page * NativeEvent))
    (pre mid post : list (DragDropPayload * option nat))
    (ds : DragDropPayload) (tag : option nat) :
  (runByRef opts events).2 = pre ++ (ds, tag) :: mid ++ post →
  type ds = DragStart →
  Forall (λ pt, type pt.1 = DragOver ∨ type pt.1 = DragEnd) mid →
  (∃ arrays pg target,
     (arrays, pg, dragstart target) ∈ events
     ∧ tag = sharedAtDragStart opts arrays pg target)
  ∧ Forall (λ pt, pt.2 = tag) mid
  ∧ (tag = None → Forall (λ pt, dragElements pt.1 = dragElements ds) mid)
  ∧ (∀ α, tag = Some α →
       Forall (λ pt, ∃ arrays pg,
                 (arrays, pg, originalEvent pt.1) ∈ events
                 ∧ dragElements pt.1 = readArray opts arrays pg α) mid).
Proof.
  intros Hout Hds Hmid.
  assert (Hsame : Forall (λ pt : DragDropPayload * option nat,
                    pt.2 = tag ∧ (tag = None → dragElements pt.1 = dragElements ds)) mid).
  { pose proof (runByRefFrom_chained opts initialByRef None events eq_refl) as Hc.
    fold (runByRef opts events) in Hc. rewrite Hout in Hc.
    apply chainedByRef_app in Hc as [_ Hc]. destruct Hc as [_ Hc].
    apply chainedByRef_app in Hc as [Hc _]. by apply chainedByRef_same_array. }
  split; [|split; [|split]].
  - assert (Hin : (ds, tag) ∈ (runByRefFrom opts initialByRef events).2).
    { fold (runByRef opts events). rewrite Hout. apply elem_of_app. right. left. }
    apply runByRefFrom_emitted in Hin as (s & [[arrays pg] e] & Hev & Hp).
    destruct (stepByRef_started opts s arrays pg e _ Hp Hds) as (target & -> & Htag).
    by exists arrays, pg, target.
  - eapply Forall_impl; [exact Hsame|]. by intros pt [? _].
  - intros Hnone. eapply Forall_impl; [exact Hsame|]. intros pt [_ H]. by apply H.
  - intros α Hα. apply Forall_forall. intros pt Hpt.
    assert (Hin : pt ∈ (runByRefFrom opts initialByRef events).2).
    { fold (runByRef opts events). rewrite Hout. apply elem_of_app. right. right.
      apply elem_of_app. by left. }
    apply runByRefFrom_emitted in Hin as (s & [[arrays pg] e] & Hev & Hp).
    rewrite Forall_forall in Hmid, Hsame.
    destruct (stepByRef_passed_on opts s arrays pg e pt Hp (Hmid pt Hpt)) as (Ho & _ & Hread).
    exists arrays, pg. rewrite Ho. split; [done|]. apply Hread.
    destruct (Hsame pt Hpt) as [-> _]. done.
Qed.

(** Items 1 and 2 are selected when the drag of item 2 starts; the provider
    then returns another array and the first is left alone: the payloads of
    the drag keep the first array, with items 1 and 2. *)
Lemma dragElements_same_array_witness :
  Forall (λ pt, pt.2 = Some 0)
    (drop 2 (runByRef (optionsExtended Demo.selecting) Demo.reassign).2)
  ∧ (λ pt, (type pt.1, dragElements pt.1))
      <$> (runByRef (optionsExtended Demo.selecting) Demo.reassign).2
    = [(BeforeDragStart, [2]); (DragStart, [1; 2]); (DragOver, [1; 2]); (DragEnd, [1; 2])].
Proof.
  split; [|reflexivity].
  pose (out := (runByRef (optionsExtended Demo.selecting) Demo.reassign).2).
  assert (Hds : ∃ ds, out !! 1 = Some (ds, Some 0)) by (vm_compute; eauto).
  destruct Hds as [ds Hds].
  assert (Hsplit : out = take 1 out ++ (ds, Some 0) :: drop 2 out ++ []).
  { rewrite app_nil_r. rewrite <- (take_drop 1 out) at 1. f_equal.
    rewrite (drop_S out _ 1 Hds). done. }
  assert (Hty : type ds = DragStart).
  { revert Hds. vm_compute. by intros [= <-]. }
  destruct (dragElements_same_array (optionsExtended Demo.selecting) Demo.reassign
              (take 1 out) (drop 2 out) [] ds (Some 0) Hsplit Hty) as (_ & Hall & _).
  - vm_compute. repeat (constructor; [first [by left | by right]|]). constructor.
  - exact Hall.
Defined.

(** C6, as the specification words it, fails: items 1 and 2 are selected when
    the drag of item 2 starts; item 3 is then pushed onto the selected array,
    in place, and the [DragOver] payload that follows has items 1, 2 and 3 as
    its dragged elements, not those of the [DragStart] payload. *)
Lemma dragElements_changed_in_place :
  ¬ (∀ (opts : Options.t) (events : list (Arrays * Page * NativeEvent))
       (pre mid post : list DragDropPayload) (ds : DragDropPayload),
       (runByRef opts events).2.*1 = pre ++ ds :: mid ++ post →
       type ds = DragStart →
       Forall (λ p, type p = DragOver ∨ type p = DragEnd) mid →
       Forall (λ p, dragElements p = dragElements ds) mid).
Proof.
  intros H.
  pose (out := (runByRef (optionsExtended Demo.selecting) Demo.pushInPlace).2.*1).
  assert (Hds : ∃ ds, out !! 1 = Some ds ∧ type ds = DragStart ∧ dragElements ds = [1; 2]).
  { eexists. split; [vm_compute; reflexivity|]. split; reflexivity. }
  assert (Hover : ∃ p, out !! 2 = Some p ∧ type p = DragOver
                       ∧ dragElements p = [1; 2; 3]).
  { eexists. split; [vm_compute; reflexivity|]. split; reflexivity. }
  destruct Hds as (ds & Hds & Hty & Hd). destruct Hover as (p & Hp & Hpty & Hpd).
  assert (Hsplit : out = take 1 out ++ ds :: [p] ++ []).
  { rewrite <- (take_drop 1 out) at 1. f_equal.
    rewrite (drop_S out ds 1 Hds), (drop_S out p 2 Hp). done. }
  specialize (H (optionsExtended Demo.selecting) Demo.pushInPlace
                (take 1 out) [p] [] ds Hsplit Hty).
  assert (Hall : Forall (λ p, dragElements p = dragElements ds) [p]).
  { apply H. constructor; [by left|constructor]. }
  inversion Hall as [|? ? Heq _]; subst. rewrite Hd, Hpd in Heq. discriminate.
Qed.

(** X2: when it is emitted, a [BeforeDragStart] or [DragStart] payload never
    has an empty list of dragged elements, in a run by value and in a run
    that follows the array objects, whatever the application has made of its
    arrays before: the first holds the one drag element in a new array, the
    second is computed from the provider's answer as the drag starts. *)
Theorem started_dragElements_never_empty (opts : Options.t) :
  (∀ events : list (Page * NativeEvent),
     Forall (λ p, type p = BeforeDragStart ∨ type p = DragStart → dragElements p ≠ [])
       (run opts events).2)
  ∧ (∀ events : list (Arrays * Page * NativeEvent),
       Forall (λ pt, type pt.1 = BeforeDragStart ∨ type pt.1 = DragStart
                     → dragElements pt.1 ≠ [])
         (runByRef opts events).2).
Proof.
  assert (Hshape : ∀ prev p, emittedFrom opts prev p →
            type p = BeforeDragStart ∨ type p = DragStart → dragElements p ≠ []).
  { intros prev p (_ & _ & Hp) [Hty|Hty]; rewrite Hty in Hp.
    - destruct Hp as [[d Hd] _]. by rewrite Hd.
    - by destruct Hp. }
  split; intros events.
  - apply (linked_Forall (emittedFrom opts) _ None); [done|apply (runFrom_links _ initial)].
  - apply Forall_forall. intros pt Hpt.
    apply runByRefFrom_emitted in Hpt as (s & [[arrays pg] e] & _ & Hpt).
    rewrite stepByRef_out in Hpt. apply list_elem_of_fmap in Hpt as (p & -> & Hp).
    cbn [fst].
    pose proof (linked_Forall (emittedFrom opts) _ _ _ Hshape
                  (step_links opts (refresh opts arrays pg s) (pg, e))) as Hall.
    rewrite Forall_forall in Hall. by apply Hall.
Qed.

(** ** Deduplication, with more than one subscription *)

(** The first [distinctUntilChanged] records the offset it lets through: an
    event that passed the throttle with an offset other than the last one,
    then an event of the same subscription with an equal offset, whatever
    its target, page and store: the second is skipped before any position is
    computed. *)
Lemma dragOver_offset_recorded (opts : Options.t) pg pg' e e' timeStamp timeStamp'
    offsetX offsetY offsetX' offsetY' target target' st st' i i1 :
  dragEndPending i = true →
  throttleStage opts timeStamp i = Some i1 →
  sameOffset i1 (axisOffset opts offsetX offsetY) = false →
  Num.seq (axisOffset opts offsetX offsetY) (axisOffset opts offsetX' offsetY') = true →
  ∃ i',
    onDragOver opts pg' e' timeStamp' offsetX' offsetY' target' st'
      (onDragOver opts pg e timeStamp offsetX offsetY target st i).1.2
    = (st', i', [])
    ∧ prevResult i'
      = prevResult (onDragOver opts pg e timeStamp offsetX offsetY target st i).1.2.
Proof.
  intros Hp Hthr Hoff Heq.
  assert (Hrec : prevOffset (onDragOver opts pg e timeStamp offsetX offsetY target st i).1.2
                 = Some (axisOffset opts offsetX offsetY)).
  { unfold onDragOver. rewrite Hp, Hthr. unfold dragOverStages. rewrite Hoff.
    destruct (closest pg target _); [|done].
    destruct (currentPayload st); [|done].
    destruct (calcPositionLocal _ _ _ _ _ _) as [position cache].
    destruct (sameResult _ _ _); [done|]. by destruct (_ && _). }
  destruct (onDragOver_same_offset opts pg' e' timeStamp' offsetX' offsetY' target' st' _ _
              Hrec Heq) as (i' & Hi' & _ & Hr).
  by exists i'.
Qed.

(** C9, on the code: each subscription deduplicates for itself.  After a click
    on item 1 (pointer down, pointer up, no drag), item 1 is dragged over
    item 2 at an offset giving [before], then again at the same offset: the
    first [dragover] gives two [DragOver] payloads for item 2, one from the
    subscription of the click, and the second gives none. *)
Theorem click_then_hover_twice_emits_two :
  (λ p, (type p, dropElement p, position p, originalEvent p))
    <$> createDragDropObservable Partial.empty Demo.clickThenHoverTwice
  = [(BeforeDragStart, None, None, mousedown 1);
     (BeforeDragStart, None, None, mousedown 1);
     (DragStart, None, None, dragstart 1);
     (DragStart, None, None, dragstart 1);
     (DragOver, Some 2, Some PosBefore, dragover 0 5 20 2);
     (DragOver, Some 2, Some PosBefore, dragover 0 5 20 2)]
  ∧ countType DragOver (createDragDropObservable Partial.empty Demo.clickThenHoverTwice) = 2.
Proof. split; reflexivity. Qed.
